(** * Incremental Jira sync: change detection and merge

    A shallow embedding of [JiraIncrementalSync] from
    [examples/confluence_getting_jira.py]: the text normalisation
    [clean_text], the extraction of a ticket record, the change detection
    [is_issue_modified] with its inner helper [safe_compare], and the merge
    loop of [sync_jira_issues].

    Python strings are modelled by [string]; a character is a code point
    below 256.  File and network access are replaced by their results: the
    decoded JSON file is an argument of [load_existing_data], the pages
    returned by [search_issues] are an argument of [sync_jira_issues], and
    the two change lines of the merge loop, "Added new issue" and "Updated
    issue", are returned as a change log.  The other lines the script
    prints (the progress line of every page, the total at the end, the
    diagnostics inside [is_issue_modified]) are not modelled.

    The records are typed.  A stored record is a JSON object whose text
    entries are strings or [null] and whose ['comments'] entry, when
    present, is a list of objects; a fetched ticket has its [comment]
    attribute missing or holding a list.  On a stored ['comments'] that is
    [null] or holds something other than objects, and on a fetched ticket
    whose [comment] attribute is [None], the code raises ([TypeError],
    [AttributeError]); such inputs are outside the model, and so are the
    failures of the network and of the file system. *)

From Stdlib Require Import Bool Arith ZArith Lia List Ascii String.
Import ListNotations.

Local Open Scope list_scope.
Local Open Scope string_scope.

(** ** The Python builtins the script relies on *)

Module Py.

(** [str.isspace] on one character, restricted to code points below 256:
    TAB, LF, VT, FF, CR, the separators FS, GS, RS, US, the space, NEL
    (0x85) and the no-break space (0xA0). *)
Definition isspace (c : ascii) : bool :=
  let n := nat_of_ascii c in
  (((9 <=? n) && (n <=? 13)) || ((28 <=? n) && (n <=? 32))
   || (n =? 133) || (n =? 160))%nat.

(** [s.lstrip()]: drop the leading run of whitespace. *)
Fixpoint lstrip (s : string) : string :=
  match s with
  | EmptyString => EmptyString
  | String c s' => if isspace c then lstrip s' else s
  end.

(** [s.rstrip()]: drop the trailing run of whitespace.  A character is
    dropped when it is whitespace and nothing survives to its right. *)
Fixpoint rstrip (s : string) : string :=
  match s with
  | EmptyString => EmptyString
  | String c s' =>
      match rstrip s' with
      | EmptyString => if isspace c then EmptyString else String c EmptyString
      | r => String c r
      end
  end.

(** [s.strip()] with no argument. *)
Definition strip (s : string) : string := rstrip (lstrip s).

(** [s.replace(old, new)] for a non-empty [old]: scan from the left; at
    each position where [old] starts, emit [new] and jump over [old],
    otherwise copy one character.  [skip] counts the characters of a
    matched [old] that are still to be jumped over. *)
Fixpoint replace_from (old new : string) (skip : nat) (s : string) : string :=
  match s with
  | EmptyString => EmptyString
  | String c s' =>
      match skip with
      | S k => replace_from old new k s'
      | O =>
          if prefix old s
          then new ++ replace_from old new (String.length old - 1) s'
          else String c (replace_from old new 0 s')
      end
  end.

Definition replace (old new s : string) : string := replace_from old new 0 s.

(** Truth value of a value that is [None] or a [str]. *)
Definition truthy (text : option string) : bool :=
  match text with
  | None => false
  | Some EmptyString => false
  | Some _ => true
  end.

(** Exceptions the modelled code can raise. *)
Inductive exn : Type :=
| KeyError (k : string).

Inductive result (A : Type) : Type :=
| Ok (a : A)
| Raise (e : exn).

Arguments Ok {A} a.
Arguments Raise {A} e.

Definition bind {A B : Type} (m : result A) (k : A -> result B) : result B :=
  match m with
  | Ok a => k a
  | Raise e => Raise e
  end.

(** A [dict] with string keys, in insertion order. *)
Definition dict (V : Type) : Type := list (string * V).

Fixpoint dict_get {V : Type} (d : dict V) (k : string) : option V :=
  match d with
  | [] => None
  | (k', v) :: d' => if String.eqb k' k then Some v else dict_get d' k
  end.

Definition dict_mem {V : Type} (d : dict V) (k : string) : bool :=
  match dict_get d k with Some _ => true | None => false end.

(** [d[k] = v]: an existing key keeps its position and takes the new
    value; a new key goes to the end. *)
Fixpoint dict_set {V : Type} (d : dict V) (k : string) (v : V) : dict V :=
  match d with
  | [] => [(k, v)]
  | (k', v') :: d' =>
      if String.eqb k' k then (k, v) :: d' else (k', v') :: dict_set d' k v
  end.

Definition dict_keys {V : Type} (d : dict V) : list string := map fst d.
Definition dict_values {V : Type} (d : dict V) : list V := map snd d.

End Py.

Import Py.

Notation "x <- m ;; k" := (bind m (fun x => k))
  (at level 61, m at next level, right associativity).

(** The characters TAB, LF, CR and the strings ['\t'], ['\n'], ['\r\n']. *)
Definition ch_tab : ascii := "009"%char.
Definition ch_lf : ascii := "010"%char.
Definition ch_cr : ascii := "013"%char.

Definition tab : string := String ch_tab "".
Definition lf : string := String ch_lf "".
Definition crlf : string := String ch_cr lf.

(** ** [clean_text] *)

Definition clean_text (text : option string) : string :=
  match text with
  | Some s =>
      if truthy text
      then replace tab " " (replace crlf lf (strip s))
      else "No content"
  | None => "No content"
  end.

(** ** Data

    [Jira] holds what the script reads from the objects of the jira client:
    an attribute that is [None] or missing is [None] here. *)

Module Jira.

(** A resource such as a resolution: its [name] attribute and the text
    that [str()] renders for it. *)
Record Resource : Type := { name : string; to_str : string }.

(** A comment: [comment.author.displayName] and [comment.body]. *)
Record Comment : Type := { author : string; body : option string }.

(** [issue.fields]; [reporter] is [reporter.displayName], [comment] is
    [comment.comments], empty when the attribute is missing.  A ticket
    whose [comment] attribute is [None], on which [extract_issue_data]
    raises [AttributeError], has no counterpart here. *)
Record Fields : Type := {
  summary : option string;
  description : option string;
  reporter : option string;
  resolution : option Resource;
  customfield_12602 : option string;
  created : option string;
  comment : list Comment
}.

Record Issue : Type := { key : string; fields : Fields }.

End Jira.

(** A stored comment, one JSON object of a ticket's ['comments'] list.
    [None] is an entry the object does not have. *)
Record Comment : Type := {
  author : option string;
  body : option string;
  message : option string
}.

(** A stored ticket, one JSON object of the output file.  [key = None] is a
    record without a ['key'] entry; for the other text entries [None] is an
    entry that is missing or [null] (the code reads them with [.get]); a
    missing ['comments'] entry is the empty list.  A ['comments'] entry
    that is [null], or that holds something other than objects, makes
    [is_issue_modified] raise and has no counterpart here. *)
Record Issue : Type := {
  key : option string;
  summary : option string;
  reporter : option string;
  description : option string;
  resolution : option string;
  root_cause : option string;
  created_at : option string;
  comments : list Comment
}.

(** The values [safe_compare] receives as [new_value], besides [None]. *)
Inductive value : Type :=
| PyStr (s : string)
| PyResource (r : Jira.Resource).

(** [str(v)] *)
Definition str (v : value) : string :=
  match v with
  | PyStr s => s
  | PyResource r => Jira.to_str r
  end.

(** The two change lines of the merge loop: "Added new issue: k" and
    "Updated issue: k". *)
Inductive ChangeEvent : Type :=
| Added (k : string)
| Updated (k : string).

Definition opt_eqb (a b : option string) : bool :=
  match a, b with
  | None, None => true
  | Some x, Some y => String.eqb x y
  | _, _ => false
  end.

Definition is_none {A : Type} (a : option A) : bool :=
  match a with None => true | Some _ => false end.

(** ** Extraction *)

(** [getattr(issue.fields, field_id)] for the two names the script passes;
    any other name raises [AttributeError], which the caller turns into
    [None]. *)
Definition getattr_fields (f : Jira.Fields) (field_id : string) : option string :=
  if String.eqb field_id "customfield_12602" then Jira.customfield_12602 f
  else if String.eqb field_id "created" then Jira.created f
  else None.

Definition get_custom_field_value (issue : Jira.Issue) (field_id : string)
  : option string :=
  let value := getattr_fields (Jira.fields issue) field_id in
  if truthy value then Some (clean_text value) else None.

(** [extract_issue_data] on a ticket whose [comment] attribute is missing
    or holds a list. *)
Definition extract_issue_data (singleIssue : Jira.Issue) : Issue :=
  let f := Jira.fields singleIssue in
  let reporter :=
    match Jira.reporter f with
    | Some displayName => displayName
    | None => "Unknown Reporter"
    end in
  {| key := Some (Jira.key singleIssue);
     summary := Some (clean_text (Jira.summary f));
     reporter := Some reporter;
     description := Some (clean_text (Jira.description f));
     resolution := option_map Jira.name (Jira.resolution f);
     root_cause := get_custom_field_value singleIssue "customfield_12602";
     created_at := get_custom_field_value singleIssue "created";
     comments :=
       map (fun comment =>
              {| author := Some (Jira.author comment);
                 body := Some (clean_text (Jira.body comment));
                 message := None |})
           (Jira.comment f) |}.

(** ** Change detection *)

(** The inner helper of [is_issue_modified].  The test
    [isinstance(new_value, type)] holds for classes only, never for a
    string or a resource, so that branch leaves [new_value] as it is. *)
Definition safe_compare (existing_value : option string) (new_value : option value)
  : bool :=
  if is_none existing_value && is_none new_value then false
  else if opt_eqb existing_value (Some "No root cause provided") && is_none new_value
  then false
  else if opt_eqb existing_value (Some "Unresolved") && is_none new_value
  then false
  else
    let new_str := option_map (fun v => clean_text (Some (str v))) new_value in
    let existing_str := option_map (fun v => clean_text (Some v)) existing_value in
    if (opt_eqb existing_str (Some "No content") && is_none new_str)
       || (is_none existing_str && opt_eqb new_str (Some "No content"))
    then false
    else negb (opt_eqb existing_str new_str).

Definition comparison_map (new_issue : Jira.Issue) : list (string * option value) :=
  let f := Jira.fields new_issue in
  [ ("summary", option_map PyStr (Jira.summary f));
    ("description", option_map PyStr (Jira.description f));
    ("resolution", option_map PyResource (Jira.resolution f));
    ("root_cause", option_map PyStr (Jira.customfield_12602 f)) ]%list.

(** [existing_issue.get(field)] for the text entries. *)
Definition Issue_get (existing_issue : Issue) (field : string) : option string :=
  if String.eqb field "key" then key existing_issue
  else if String.eqb field "summary" then summary existing_issue
  else if String.eqb field "reporter" then reporter existing_issue
  else if String.eqb field "description" then description existing_issue
  else if String.eqb field "resolution" then resolution existing_issue
  else if String.eqb field "root_cause" then root_cause existing_issue
  else if String.eqb field "created_at" then created_at existing_issue
  else None.

Definition placeholder : string := "No comments found for this issue.".

(** The stored comments that are kept: those whose ['message'] entry is not
    the placeholder. *)
Definition filter_placeholders (existing_comments : list Comment) : list Comment :=
  filter (fun comment => negb (opt_eqb (message comment) (Some placeholder)))
         existing_comments.

(** [old_comment.get('body', '')] *)
Definition get_body (old_comment : Comment) : option string :=
  match body old_comment with
  | Some b => Some b
  | None => Some ""
  end.

(** The pairwise loop over [zip(existing_comments, new_comments)]. *)
Definition content_modified (existing_comments : list Comment)
  (new_comments : list Jira.Comment) : bool :=
  existsb (fun p : Comment * Jira.Comment =>
             negb (String.eqb (clean_text (get_body (fst p)))
                              (clean_text (Jira.body (snd p)))))
          (combine existing_comments new_comments).

(** The second half of [is_issue_modified], from "Compare comments" on,
    on a stored comment list of objects; its diagnostic prints are left
    out. *)
Definition comments_modified (existing_comments : list Comment)
  (new_comments : list Jira.Comment) : bool :=
  let existing_comments := filter_placeholders existing_comments in
  if negb (List.length existing_comments =? List.length new_comments)%nat
     && ((0 <? List.length existing_comments)%nat
         || (0 <? List.length new_comments)%nat)
  then true
  else
    match new_comments with
    | [] => false
    | _ => content_modified existing_comments new_comments
    end.

(** The first half of [is_issue_modified]: the loop over [comparison_map]. *)
Definition fields_modified (existing_issue : Issue) (new_issue : Jira.Issue) : bool :=
  existsb (fun p : string * option value =>
             safe_compare (Issue_get existing_issue (fst p)) (snd p))
          (comparison_map new_issue).

Definition is_issue_modified (existing_issue : Issue) (new_issue : Jira.Issue) : bool :=
  if fields_modified existing_issue new_issue
  then true
  else comments_modified (comments existing_issue)
                         (Jira.comment (Jira.fields new_issue)).

(** ** Loading and merging *)

(** [issue['key']] *)
Definition item_key (issue : Issue) : result string :=
  match key issue with
  | Some k => Ok k
  | None => Raise (KeyError "key")
  end.

(** The dict comprehension [{issue['key']: issue for issue in existing_data}],
    with the dict built so far as accumulator. *)
Fixpoint index_by_key (existing_data : list Issue) (acc : dict Issue)
  : result (dict Issue) :=
  match existing_data with
  | [] => Ok acc
  | issue :: rest =>
      k <- item_key issue ;;
      index_by_key rest (dict_set acc k issue)
  end.

(** [output_file] is the decoded content of the file, [None] when the file
    does not exist. *)
Definition load_existing_data (output_file : option (list Issue))
  : result (dict Issue) :=
  match output_file with
  | None => Ok []
  | Some existing_data => index_by_key existing_data []
  end.

(** [[issue for issue in updated_issues if issue['key'] != k]] *)
Fixpoint drop_key (updated_issues : list Issue) (k : string) : result (list Issue) :=
  match updated_issues with
  | [] => Ok []
  | issue :: rest =>
      k' <- item_key issue ;;
      rest' <- drop_key rest k ;;
      Ok (if String.eqb k' k then rest' else issue :: rest')
  end.

(** The state of the merge loop: [updated_issues] and the change log so
    far, that is the "Added new issue" and "Updated issue" lines and no
    other printed line. *)
Definition state : Type := (list Issue * list ChangeEvent)%type.

(** The body of the inner loop, "Process each issue". *)
Definition process_issue (existing_issues : dict Issue) (st : state)
  (singleIssue : Jira.Issue) : result state :=
  let (updated_issues, log) := st in
  let issue_data := extract_issue_data singleIssue in
  match dict_get existing_issues (Jira.key singleIssue) with
  | Some existing_issue =>
      if is_issue_modified existing_issue singleIssue
      then
        updated_issues <- drop_key updated_issues (Jira.key singleIssue) ;;
        Ok ((updated_issues ++ [issue_data])%list,
            (log ++ [Updated (Jira.key singleIssue)])%list)
      else Ok st
  | None =>
      Ok ((updated_issues ++ [issue_data])%list,
          (log ++ [Added (Jira.key singleIssue)])%list)
  end.

Fixpoint process_batch (existing_issues : dict Issue) (st : state)
  (batch : list Jira.Issue) : result state :=
  match batch with
  | [] => Ok st
  | singleIssue :: rest =>
      st' <- process_issue existing_issues st singleIssue ;;
      process_batch existing_issues st' rest
  end.

(** The outer loop; [batches] are the pages [search_issues] returns, one per
    value of [start_at]. *)
Fixpoint process_batches (existing_issues : dict Issue) (st : state)
  (batches : list (list Jira.Issue)) : result state :=
  match batches with
  | [] => Ok st
  | batch :: rest =>
      st' <- process_batch existing_issues st batch ;;
      process_batches existing_issues st' rest
  end.

(** The merge of a loaded collection with one sequence of fetched tickets. *)
Definition merge (existing_issues : dict Issue) (fetched : list Jira.Issue)
  : result state :=
  process_batch existing_issues (dict_values existing_issues, []) fetched.

(** The result is the list written to the output file and the change
    log. *)
Definition sync_jira_issues (output_file : option (list Issue))
  (batches : list (list Jira.Issue)) : result state :=
  existing_issues <- load_existing_data output_file ;;
  process_batches existing_issues (dict_values existing_issues, []) batches.

(** ** The normalisation in the words of the specification

    These definitions are what the specification says [normalize_text]
    does; the theorems below compare them with [clean_text]. *)

Fixpoint all_space (s : string) : bool :=
  match s with
  | EmptyString => true
  | String c s' => isspace c && all_space s'
  end.

Definition starts_with_space (s : string) : bool :=
  match s with
  | EmptyString => false
  | String c _ => isspace c
  end.

Fixpoint ends_with_space (s : string) : bool :=
  match s with
  | EmptyString => false
  | String c s' =>
      match s' with
      | EmptyString => isspace c
      | String _ _ => ends_with_space s'
      end
  end.

(** [t] is [s] without its leading and trailing whitespace. *)
Definition trimmed (s t : string) : Prop :=
  exists p q,
    s = p ++ t ++ q
    /\ all_space p = true /\ all_space q = true
    /\ starts_with_space t = false /\ ends_with_space t = false.

(** Every CR LF pair, read from the left, becomes one LF. *)
Fixpoint crlf_to_lf (s : string) : string :=
  match s with
  | EmptyString => EmptyString
  | String c s' =>
      match s' with
      | EmptyString => String c EmptyString
      | String c' s'' =>
          if Ascii.eqb c ch_cr && Ascii.eqb c' ch_lf
          then String ch_lf (crlf_to_lf s'')
          else String c (crlf_to_lf s')
      end
  end.

(** Every TAB becomes one space. *)
Fixpoint tabs_to_spaces (s : string) : string :=
  match s with
  | EmptyString => EmptyString
  | String c s' =>
      String (if Ascii.eqb c ch_tab then " "%char else c) (tabs_to_spaces s')
  end.

Fixpoint contains_char (c : ascii) (s : string) : bool :=
  match s with
  | EmptyString => false
  | String c' s' => Ascii.eqb c' c || contains_char c s'
  end.

(** ** The placeholder filter in the words of the specification *)

(** A stored comment that is a placeholder meaning "no comments found": its
    ['message'] entry is the placeholder text. *)
Definition is_placeholder (c : Comment) : bool :=
  match message c with
  | Some m => String.eqb m "No comments found for this issue."
  | None => false
  end.

(** The stored comments that are not placeholders, in their order. *)
Fixpoint real_comments (cs : list Comment) : list Comment :=
  match cs with
  | [] => []
  | c :: cs' =>
      if is_placeholder c then real_comments cs' else c :: real_comments cs'
  end.

(** ** Vocabulary of the statements *)

(** The four fields [is_issue_modified] compares. *)
Definition compared_fields : list string :=
  ["summary"; "description"; "resolution"; "root_cause"]%list.

(** [comparison_map[field]]; [None] is an absent fetched value. *)
Definition comparison_map_get (new_issue : Jira.Issue) (field : string)
  : option value :=
  match dict_get (comparison_map new_issue) field with
  | Some new_value => new_value
  | None => None
  end.

(** Nothing but [field] makes the ticket count as modified: the other
    compared fields and the comments do not. *)
Definition unmodified_except (field : string) (existing_issue : Issue)
  (new_issue : Jira.Issue) : bool :=
  negb (existsb (fun p : string * option value =>
                   negb (String.eqb (fst p) field)
                   && safe_compare (Issue_get existing_issue (fst p)) (snd p))
                (comparison_map new_issue))
  && negb (comments_modified (comments existing_issue)
                             (Jira.comment (Jira.fields new_issue))).

(** The three sentinel strings of [safe_compare]. *)
Definition sentinels : list string :=
  ["Unresolved"; "No root cause provided"; "No content"]%list.

(** The stored record has a ['key'] entry. *)
Definition keyed (issue : Issue) : Prop := key issue <> None.

(** The record's key is [k]. *)
Definition has_key (k : string) (issue : Issue) : bool :=
  opt_eqb (key issue) (Some k).

(** How many records of a list carry the key [k]. *)
Definition count_key (k : string) (issues : list Issue) : nat :=
  List.length (filter (has_key k) issues).

(** What [load_existing_data] returns: distinct keys, each mapped to a
    record that carries that key. *)
Definition wf_dict (d : dict Issue) : Prop :=
  NoDup (dict_keys d)
  /\ Forall (fun p : string * Issue => key (snd p) = Some (fst p)) d.

(** The invariant of the merge loop: every record of [updated_issues] has a
    key, and every key of [existing_issues] is carried by exactly one
    record. *)
Definition merge_inv (existing_issues : dict Issue) (st : state) : Prop :=
  Forall keyed (fst st)
  /\ forall k, In k (dict_keys existing_issues) -> count_key k (fst st) = 1.

(** A fetched text that [clean_text] cleans to a text it leaves alone. *)
Definition stable_text (text : option string) : Prop :=
  match text with
  | None => True
  | Some s => clean_text (Some (clean_text (Some s))) = clean_text (Some s)
  end.

(** A fetched ticket whose texts are all stable and whose resolution is
    rendered by [str()] as its name. *)
Definition stable_ticket (t : Jira.Issue) : Prop :=
  let f := Jira.fields t in
  stable_text (Jira.summary f)
  /\ stable_text (Jira.description f)
  /\ stable_text (Jira.customfield_12602 f)
  /\ match Jira.resolution f with
     | Some r => clean_text (Some (Jira.name r)) = clean_text (Some (Jira.to_str r))
     | None => True
     end
  /\ Forall (fun comment => stable_text (Jira.body comment)) (Jira.comment f).

(** The key an event is about. *)
Definition event_key (ev : ChangeEvent) : string :=
  match ev with
  | Added k => k
  | Updated k => k
  end.

(** The stored form of a fetched comment list, as [extract_issue_data]
    builds it. *)
Definition stored_form (ns : list Jira.Comment) : list Comment :=
  map (fun comment =>
         {| author := Some (Jira.author comment);
            body := Some (clean_text (Jira.body comment));
            message := None |}) ns.

(** The invariant of the merge loop when no key is fetched twice; [seen]
    are the tickets processed so far.  The keys of [updated_issues] are
    distinct and come from the loaded collection or from [seen]; every
    event is about a ticket of [seen], at most one per key; every new
    ticket of [seen] has its record and its [Added] line. *)
Definition distinct_inv (existing_issues : dict Issue) (seen : list Jira.Issue)
  (st : state) : Prop :=
  NoDup (map key (fst st))
  /\ (forall issue, In issue (fst st) ->
       exists k, key issue = Some k
                 /\ (In k (dict_keys existing_issues)
                     \/ In k (map Jira.key seen)))
  /\ (forall ev, In ev (snd st) -> In (event_key ev) (map Jira.key seen))
  /\ NoDup (map event_key (snd st))
  /\ (forall t, In t seen ->
       dict_get existing_issues (Jira.key t) = None ->
       In (extract_issue_data t) (fst st) /\ In (Added (Jira.key t)) (snd st)).

(** ** Sample tickets, for the concrete instances below *)

Definition sample_fields (description : option string)
  (resolution : option Jira.Resource) (root_cause : option string)
  (comments : list Jira.Comment) : Jira.Fields :=
  {| Jira.summary := Some "Disk full";
     Jira.description := description;
     Jira.reporter := Some "Ann";
     Jira.resolution := resolution;
     Jira.customfield_12602 := root_cause;
     Jira.created := Some "2024-01-01";
     Jira.comment := comments |}.

Definition sample_ticket (k : string) (description : option string)
  (comments : list Jira.Comment) : Jira.Issue :=
  {| Jira.key := k; Jira.fields := sample_fields description None None comments |}.

(** A stored ticket with the given resolution, root cause and comments. *)
Definition sample_stored (resolution root_cause : option string)
  (comments : list Comment) : Issue :=
  {| key := Some "OPS-1";
     summary := Some "Disk full";
     reporter := Some "Ann";
     description := Some "The disk is full";
     resolution := resolution;
     root_cause := root_cause;
     created_at := Some "2024-01-01";
     comments := comments |}.

Definition stored_comment (body message : option string) : Comment :=
  {| author := Some "Bob"; body := body; message := message |}.

Definition fetched_comment (body : string) : Jira.Comment :=
  {| Jira.author := "Bob"; Jira.body := Some body |}.

(** A stored record without a ['key'] entry. *)
Definition keyless_record : Issue :=
  {| key := None;
     summary := Some "Half-written record";
     reporter := None;
     description := None;
     resolution := None;
     root_cause := None;
     created_at := None;
     comments := [] |}.

(** Two fetched tickets; the description of the first is a single space. *)
Definition ticket_blank : Jira.Issue := sample_ticket "OPS-1" (Some " ") [].
Definition ticket_plain : Jira.Issue :=
  sample_ticket "OPS-2" (Some "Login fails") [].

(** ** The paging loop of [sync_jira_issues] and [main]

    [sync_jira_issues] above takes the pages as they come back;
    [sync_jira_issues_paged] adds the loop that asks for them.  The
    collaborator [search_issues] is a function of [startAt] and
    [maxResults] that returns; the query string is fixed per instance.
    Python integers are [Z]. *)

(** The loop of [range(start, stop, step)] for a non-zero [step]: count up
    while below [stop] for a positive step, down while above it for a
    negative one.  [fuel] bounds the number of rounds. *)
Fixpoint range_loop (fuel : nat) (start stop step : Z) : list Z :=
  match fuel with
  | O => []
  | S fuel' =>
      if (if (0 <? step)%Z then (start <? stop)%Z else (stop <? start)%Z)
      then start :: range_loop fuel' (start + step)%Z stop step
      else []
  end.

(** [range(0, stop, step)] for a non-zero [step]; every round moves by at
    least one towards [stop], so [|stop|] rounds are enough. *)
Definition range (stop step : Z) : list Z :=
  range_loop (Z.to_nat (Z.abs stop)) 0%Z stop step.

(** What a whole run can raise: an exception of the merge code, or the
    [ValueError] of [range] called with step zero. *)
Inductive run_error : Type :=
| Raised (e : exn)
| ValueError.

Inductive outcome : Type :=
| Done (st : state)
| Failed (e : run_error).

(** The pages one run asks for, in order: one call per [start_at], each
    with [maxResults = batch_size]. *)
Definition requested_pages (search_issues : Z -> Z -> list Jira.Issue)
  (batch_size max_issues : Z) : list (list Jira.Issue) :=
  map (fun start_at => search_issues start_at batch_size)
      (range max_issues batch_size).

(** [sync_jira_issues(batch_size, max_issues)]: load, then the loop over
    [range(0, max_issues, batch_size)]. *)
Definition sync_jira_issues_paged (output_file : option (list Issue))
  (search_issues : Z -> Z -> list Jira.Issue) (batch_size max_issues : Z)
  : outcome :=
  match load_existing_data output_file with
  | Raise e => Failed (Raised e)
  | Ok existing_issues =>
      if (batch_size =? 0)%Z then Failed ValueError
      else
        match process_batches existing_issues
                (dict_values existing_issues, [])
                (requested_pages search_issues batch_size max_issues) with
        | Ok st => Done st
        | Raise e => Failed (Raised e)
        end
  end.

(** [main] from the point where both [JIRA(...)] clients have been built
    and with searches that return: two runs with the default
    [batch_size=500], [max_issues=11000] on the same output file, one per
    project; the second run loads what the first has written.  The result
    is the final file and the change logs of both runs.  A client that
    cannot be built or a search that raises ends the program earlier and
    is not modelled. *)
Definition main (output_file : option (list Issue))
  (search_first search_second : Z -> Z -> list Jira.Issue) : outcome :=
  match sync_jira_issues_paged output_file search_first 500 11000 with
  | Failed e => Failed e
  | Done (written, log_first) =>
      match sync_jira_issues_paged (Some written) search_second 500 11000 with
      | Failed e => Failed e
      | Done (updated_issues, log_second) =>
          Done (updated_issues, (log_first ++ log_second)%list)
      end
  end.

(** ** Vocabulary of the further statements *)

(** The change-log entry one fetched ticket gives, if any. *)
Definition event_of (existing_issues : dict Issue) (t : Jira.Issue)
  : list ChangeEvent :=
  match dict_get existing_issues (Jira.key t) with
  | Some existing_issue =>
      if is_issue_modified existing_issue t
      then [Updated (Jira.key t)]
      else []
  | None => [Added (Jira.key t)]
  end.

(** What one round of the loop does to [updated_issues] when no record
    lacks its key. *)
Definition apply_ticket (existing_issues : dict Issue)
  (updated_issues : list Issue) (t : Jira.Issue) : list Issue :=
  match dict_get existing_issues (Jira.key t) with
  | Some existing_issue =>
      if is_issue_modified existing_issue t
      then (filter (fun issue => negb (has_key (Jira.key t) issue)) updated_issues
            ++ [extract_issue_data t])%list
      else updated_issues
  | None => (updated_issues ++ [extract_issue_data t])%list
  end.

(** The last ticket of [fetched] that carries the key [k] and counts as a
    modification of the stored record. *)
Definition last_modified (existing_issue : Issue) (k : string)
  (fetched : list Jira.Issue) : option Jira.Issue :=
  find (fun t => String.eqb (Jira.key t) k && is_issue_modified existing_issue t)
       (rev fetched).

(** The record a stored key ends up with. *)
Definition final_record (existing_issue : Issue) (k : string)
  (fetched : list Jira.Issue) : Issue :=
  match last_modified existing_issue k fetched with
  | Some t => extract_issue_data t
  | None => existing_issue
  end.

(** The fetched tickets whose key is not in the loaded collection. *)
Definition new_tickets (existing_issues : dict Issue) (fetched : list Jira.Issue)
  : list Jira.Issue :=
  filter (fun t => negb (dict_mem existing_issues (Jira.key t))) fetched.

(** A fetched page source that always answers with the same ticket list,
    cut to the window asked for. *)
Definition window (server : list Jira.Issue) (startAt maxResults : Z)
  : list Jira.Issue :=
  firstn (Z.to_nat maxResults) (skipn (Z.to_nat startAt) server).

(** * Theorems *)

(** ** Trimming *)

Section Strip.

Lemma lstrip_split (s : string) :
  exists p, s = p ++ lstrip s /\ all_space p = true.
Proof.
  induction s as [|c s [p [Hs Hp]]]; simpl.
  - exists ""; auto.
  - destruct (isspace c) eqn:Hc.
    + exists (String c p); simpl. rewrite <- Hs, Hc. auto.
    + exists ""; auto.
Qed.

Lemma lstrip_start (s : string) : starts_with_space (lstrip s) = false.
Proof.
  induction s as [|c s IH]; simpl; auto.
  destruct (isspace c) eqn:Hc; simpl; auto.
Qed.

Lemma rstrip_split (s : string) :
  exists q, s = rstrip s ++ q /\ all_space q = true.
Proof.
  induction s as [|c s [q [Hs Hq]]]; simpl.
  - exists ""; auto.
  - destruct (rstrip s) as [|c' r] eqn:Hr.
    + simpl in Hs. subst q.
      destruct (isspace c) eqn:Hc.
      * exists (String c s); simpl. rewrite Hc, Hq. auto.
      * exists s; auto.
    + exists q. split; auto. simpl. simpl in Hs. rewrite <- Hs. reflexivity.
Qed.

Lemma rstrip_end (s : string) : ends_with_space (rstrip s) = false.
Proof.
  induction s as [|c s IH]; simpl; auto.
  destruct (rstrip s) as [|c' r] eqn:Hr.
  - destruct (isspace c) eqn:Hc; simpl; auto.
  - exact IH.
Qed.

Lemma rstrip_start (s : string) :
  starts_with_space s = false -> starts_with_space (rstrip s) = false.
Proof.
  destruct s as [|c s]; simpl; auto.
  intros Hc. destruct (rstrip s); [rewrite Hc|]; simpl; auto.
Qed.

Lemma strip_trimmed (s : string) : trimmed s (strip s).
Proof.
  destruct (lstrip_split s) as [p [Hs Hp]].
  destruct (rstrip_split (lstrip s)) as [q [Hl Hq]].
  exists p, q. unfold strip. repeat split; auto.
  - rewrite <- Hl. exact Hs.
  - apply rstrip_start, lstrip_start.
  - apply rstrip_end.
Qed.

Lemma lstrip_blank (s : string) : all_space s = true -> lstrip s = "".
Proof.
  induction s as [|c s IH]; simpl; auto.
  intros H. apply andb_prop in H. destruct H as [Hc Hs].
  rewrite Hc. auto.
Qed.

Lemma strip_blank (s : string) : all_space s = true -> strip s = "".
Proof. intros H. unfold strip. rewrite (lstrip_blank s H). reflexivity. Qed.

Lemma lstrip_app_space (p s : string) :
  all_space p = true -> lstrip (p ++ s) = lstrip s.
Proof.
  induction p as [|c p IH]; simpl; auto.
  intros H. apply andb_prop in H. destruct H as [Hc Hp].
  rewrite Hc. auto.
Qed.

Lemma lstrip_fixed (s : string) : starts_with_space s = false -> lstrip s = s.
Proof. destruct s as [|c s]; simpl; auto. intros ->. reflexivity. Qed.

Lemma rstrip_blank (q : string) : all_space q = true -> rstrip q = "".
Proof.
  induction q as [|c q IH]; simpl; auto.
  intros H. apply andb_prop in H. destruct H as [Hc Hq].
  rewrite (IH Hq), Hc. reflexivity.
Qed.

Lemma rstrip_app_space (s q : string) :
  all_space q = true -> rstrip (s ++ q) = rstrip s.
Proof.
  intros Hq. induction s as [|c s IH]; simpl.
  - apply rstrip_blank, Hq.
  - rewrite IH. reflexivity.
Qed.

Lemma rstrip_fixed (s : string) : ends_with_space s = false -> rstrip s = s.
Proof.
  induction s as [|c s IH]; auto.
  destruct s as [|c' s].
  - simpl. intros ->. reflexivity.
  - intros H. change (ends_with_space (String c' s) = false) in H.
    change (rstrip (String c (String c' s)))
      with (match rstrip (String c' s) with
            | EmptyString =>
                if isspace c then EmptyString else String c EmptyString
            | String c1 r1 => String c (String c1 r1)
            end).
    rewrite (IH H). reflexivity.
Qed.

(** The trimmed text is unique: it is what [strip] returns. *)
Lemma trimmed_strip (s t : string) : trimmed s t -> t = strip s.
Proof.
  intros [p [q [Hs [Hp [Hq [Hstart Hend]]]]]]. subst s. unfold strip.
  rewrite (lstrip_app_space p _ Hp).
  destruct t as [|c t].
  - simpl append. rewrite (lstrip_blank q Hq). reflexivity.
  - rewrite lstrip_fixed; [|exact Hstart].
    rewrite (rstrip_app_space _ q Hq), (rstrip_fixed _ Hend). reflexivity.
Qed.

End Strip.

(** ** The two replacements *)

Section Replace.

Lemma string_pair_ind (P : string -> Prop) :
  P "" ->
  (forall c, P (String c "")) ->
  (forall c c' s, P s -> P (String c' s) -> P (String c (String c' s))) ->
  forall s, P s.
Proof.
  intros H0 H1 H2 s.
  assert (H : P s /\ forall c, P (String c s)).
  { induction s as [|c s [IHs IHc]]; split; auto. }
  apply H.
Qed.

Lemma prefix_cons (a b : ascii) (s1 s2 : string) :
  prefix (String a s1) (String b s2)
  = if Ascii.eqb a b then prefix s1 s2 else false.
Proof.
  simpl. destruct (ascii_dec a b) as [E|E].
  - apply Ascii.eqb_eq in E. rewrite E. reflexivity.
  - apply Ascii.eqb_neq in E. rewrite E. reflexivity.
Qed.

Lemma prefix_crlf (c c' : ascii) (s : string) :
  prefix crlf (String c (String c' s))
  = Ascii.eqb c ch_cr && Ascii.eqb c' ch_lf.
Proof.
  unfold crlf, lf. rewrite prefix_cons.
  rewrite (Ascii.eqb_sym ch_cr c).
  destruct (Ascii.eqb c ch_cr); auto.
  rewrite prefix_cons. rewrite (Ascii.eqb_sym ch_lf c').
  destruct (Ascii.eqb c' ch_lf); destruct s; auto.
Qed.

Lemma replace_from_0 (old new : string) (c : ascii) (s : string) :
  replace_from old new 0 (String c s)
  = if prefix old (String c s)
    then new ++ replace_from old new (String.length old - 1) s
    else String c (replace_from old new 0 s).
Proof. reflexivity. Qed.

Lemma replace_from_S (old new : string) (k : nat) (c : ascii) (s : string) :
  replace_from old new (S k) (String c s) = replace_from old new k s.
Proof. reflexivity. Qed.

Lemma replace_crlf (s : string) : replace crlf lf s = crlf_to_lf s.
Proof.
  unfold replace.
  induction s as [|c|c c' s IHs IHc] using string_pair_ind.
  - reflexivity.
  - rewrite replace_from_0. unfold crlf at 1. rewrite prefix_cons.
    destruct (Ascii.eqb ch_cr c); reflexivity.
  - rewrite replace_from_0, prefix_crlf.
    change (String.length crlf - 1) with 1.
    rewrite replace_from_S, IHs, IHc.
    change (crlf_to_lf (String c (String c' s)))
      with (if Ascii.eqb c ch_cr && Ascii.eqb c' ch_lf
            then String ch_lf (crlf_to_lf s)
            else String c (crlf_to_lf (String c' s))).
    reflexivity.
Qed.

Lemma replace_tab (s : string) : replace tab " " s = tabs_to_spaces s.
Proof.
  unfold replace.
  induction s as [|c s IH]; auto.
  rewrite replace_from_0. unfold tab at 1. rewrite prefix_cons.
  rewrite (Ascii.eqb_sym ch_tab c).
  change (String.length tab - 1) with 0. rewrite IH.
  change (tabs_to_spaces (String c s))
    with (String (if Ascii.eqb c ch_tab then " "%char else c) (tabs_to_spaces s)).
  destruct (Ascii.eqb c ch_tab); destruct s; reflexivity.
Qed.

Lemma tabs_to_spaces_no_lf (s : string) :
  contains_char ch_lf (tabs_to_spaces s) = contains_char ch_lf s.
Proof.
  induction s as [|c s IH]; simpl; auto.
  rewrite IH. destruct (Ascii.eqb c ch_tab) eqn:Hc; auto.
  apply Ascii.eqb_eq in Hc. subst c. reflexivity.
Qed.

Lemma crlf_to_lf_id (s : string) :
  contains_char ch_lf (crlf_to_lf s) = false -> crlf_to_lf s = s.
Proof.
  induction s as [|c|c c' s IHs IHc] using string_pair_ind; auto.
  change (crlf_to_lf (String c (String c' s)))
    with (if Ascii.eqb c ch_cr && Ascii.eqb c' ch_lf
          then String ch_lf (crlf_to_lf s)
          else String c (crlf_to_lf (String c' s))).
  destruct (Ascii.eqb c ch_cr && Ascii.eqb c' ch_lf).
  - simpl. discriminate.
  - intros H. simpl in H. apply orb_false_elim in H. destruct H as [_ H].
    rewrite (IHc H). reflexivity.
Qed.

End Replace.

(** ** [clean_text] *)

Example clean_text_none : clean_text None = "No content".
Proof. reflexivity. Qed.

Example clean_text_trims : clean_text (Some "  a b  ") = "a b".
Proof. reflexivity. Qed.

Example clean_text_line_ends :
  clean_text (Some ("foo" ++ crlf ++ "bar" ++ tab ++ "baz" ++ crlf))
  = "foo" ++ lf ++ "bar baz".
Proof. reflexivity. Qed.

(** Left-to-right replacement leaves a CR LF behind where the input had
    CR CR LF, so cleaning twice is not cleaning once. *)
Example clean_text_twice :
  clean_text (Some ("a" ++ String ch_cr crlf ++ "b")) = "a" ++ crlf ++ "b"
  /\ clean_text (Some (clean_text (Some ("a" ++ String ch_cr crlf ++ "b"))))
     = "a" ++ lf ++ "b".
Proof. split; reflexivity. Qed.

Section CleanText.

Lemma clean_text_nonempty (c : ascii) (s : string) :
  clean_text (Some (String c s))
  = tabs_to_spaces (crlf_to_lf (strip (String c s))).
Proof.
  unfold clean_text. simpl truthy. cbv iota.
  rewrite replace_crlf, replace_tab. reflexivity.
Qed.

Lemma clean_text_blank (s : string) :
  s <> "" -> all_space s = true -> clean_text (Some s) = "".
Proof.
  intros Hne Hs. destruct s as [|c s]; [congruence|].
  rewrite clean_text_nonempty, (strip_blank _ Hs). reflexivity.
Qed.

Lemma tab_to_space_other (c d : ascii) :
  (if Ascii.eqb c ch_tab then " "%char else c) = d ->
  d <> " "%char -> c = d.
Proof. destruct (Ascii.eqb c ch_tab); congruence. Qed.

Lemma tab_to_space_space (c : ascii) :
  (if Ascii.eqb c ch_tab then " "%char else c) = " "%char ->
  c = " "%char \/ c = ch_tab.
Proof.
  destruct (Ascii.eqb c ch_tab) eqn:E; auto.
  apply Ascii.eqb_eq in E. auto.
Qed.

Ltac peel H u Hc :=
  destruct u as [|? u]; [discriminate H|];
  simpl in H; injection H as Hc H.

Ltac same Hc := apply tab_to_space_other in Hc; [subst|discriminate].

Lemma tabs_to_spaces_sentinel (u : string) :
  tabs_to_spaces u = "No content" ->
  u = "No content" \/ u = "No" ++ tab ++ "content".
Proof.
  intros H.
  peel H u H0. peel H u H1. peel H u H2. peel H u H3. peel H u H4.
  peel H u H5. peel H u H6. peel H u H7. peel H u H8. peel H u H9.
  destruct u; [clear H|discriminate H].
  same H0. same H1. same H3. same H4. same H5. same H6. same H7.
  same H8. same H9.
  apply tab_to_space_space in H2. destruct H2; subst; auto.
Qed.

Lemma clean_text_sentinel (c : ascii) (s : string) :
  clean_text (Some (String c s)) = "No content" <->
  strip (String c s) = "No content"
  \/ strip (String c s) = "No" ++ tab ++ "content".
Proof.
  rewrite clean_text_nonempty. split.
  - intros H.
    assert (Hlf : contains_char ch_lf (crlf_to_lf (strip (String c s))) = false).
    { rewrite <- tabs_to_spaces_no_lf, H. reflexivity. }
    rewrite (crlf_to_lf_id _ Hlf) in H.
    apply tabs_to_spaces_sentinel. exact H.
  - intros [H|H]; rewrite H; reflexivity.
Qed.

End CleanText.

(** ** [safe_compare] and [is_issue_modified] *)

Section Modified.

(** The loop over [comparison_map] written out field by field. *)
Lemma is_issue_modified_fields (e : Issue) (n : Jira.Issue) :
  is_issue_modified e n
  = safe_compare (summary e) (option_map PyStr (Jira.summary (Jira.fields n)))
    || safe_compare (description e)
         (option_map PyStr (Jira.description (Jira.fields n)))
    || safe_compare (resolution e)
         (option_map PyResource (Jira.resolution (Jira.fields n)))
    || safe_compare (root_cause e)
         (option_map PyStr (Jira.customfield_12602 (Jira.fields n)))
    || comments_modified (comments e) (Jira.comment (Jira.fields n)).
Proof.
  unfold is_issue_modified, fields_modified, comparison_map.
  cbn [existsb fst snd].
  change (Issue_get e "summary") with (summary e).
  change (Issue_get e "description") with (description e).
  change (Issue_get e "resolution") with (resolution e).
  change (Issue_get e "root_cause") with (root_cause e).
  repeat match goal with |- context [safe_compare ?a ?b] =>
    destruct (safe_compare a b) end; reflexivity.
Qed.

Lemma safe_compare_sentinel_blank (s : string) :
  s <> "" -> all_space s = true ->
  safe_compare (Some "No content") (Some (PyStr s)) = true.
Proof.
  intros Hne Hs. unfold safe_compare. cbn [is_none andb opt_eqb option_map str].
  rewrite (clean_text_blank s Hne Hs). reflexivity.
Qed.

End Modified.

(** C7, amended.  [clean_text] returns ["No content"] for an absent and for
    an empty input.  For a non-empty input it returns the text with leading
    and trailing whitespace trimmed, then every CR LF pair turned into LF,
    then every TAB turned into a space; that result is ["No content"] only
    when the trimmed text itself reads so, with a space or a TAB between the
    two words. *)
Theorem clean_text_normalises :
  clean_text None = "No content"
  /\ clean_text (Some "") = "No content"
  /\ forall (c : ascii) (s' : string),
       let s := String c s' in
       exists t,
         trimmed s t
         /\ (forall t', trimmed s t' -> t' = t)
         /\ clean_text (Some s) = tabs_to_spaces (crlf_to_lf t)
         /\ (clean_text (Some s) = "No content"
             <-> t = "No content" \/ t = "No" ++ tab ++ "content").
Proof.
  split; [reflexivity|]. split; [reflexivity|].
  intros c s' s. exists (strip s). split; [apply strip_trimmed|].
  split; [apply trimmed_strip|].
  split; [apply clean_text_nonempty|apply clean_text_sentinel].
Qed.

(** C7 as stated fails: the input ["No content"] is neither absent nor
    empty, and [clean_text] returns the sentinel for it. *)
Lemma clean_text_sentinel_from_text :
  clean_text (Some "No content") = "No content"
  /\ Some "No content" <> (None : option string)
  /\ Some "No content" <> Some "".
Proof. repeat split; discriminate. Qed.

(** C9.  For a non-empty input [s] made of whitespace only, [clean_text]
    returns the empty string, not the sentinel: on inputs without a
    non-whitespace character the sentinel comes from the absent and from
    the empty input only.  So a stored ["No content"] compared with the
    fetched [s] counts as a modification, in [safe_compare] and so in
    [is_issue_modified] for the summary, the description and the root
    cause. *)
Theorem clean_text_whitespace_only (s : string) :
  all_space s = true ->
  clean_text None = "No content"
  /\ (clean_text (Some s) = "No content" <-> s = "")
  /\ (s <> "" ->
      clean_text (Some s) = ""
      /\ safe_compare (Some "No content") (Some (PyStr s)) = true
      /\ forall (e : Issue) (n : Jira.Issue),
           (summary e = Some "No content"
            /\ Jira.summary (Jira.fields n) = Some s)
           \/ (description e = Some "No content"
               /\ Jira.description (Jira.fields n) = Some s)
           \/ (root_cause e = Some "No content"
               /\ Jira.customfield_12602 (Jira.fields n) = Some s) ->
           is_issue_modified e n = true).
Proof.
  intros Hs. split; [reflexivity|]. split.
  - split.
    + intros H. destruct s as [|c s]; auto.
      rewrite (@clean_text_blank (String c s)) in H; [discriminate|discriminate|exact Hs].
    + intros ->. reflexivity.
  - intros Hne. split; [exact (clean_text_blank s Hne Hs)|].
    pose proof (safe_compare_sentinel_blank s Hne Hs) as Hsc.
    split; [exact Hsc|].
    intros e n H. rewrite is_issue_modified_fields.
    destruct H as [[He Hn]|[[He Hn]|[He Hn]]]; rewrite He, Hn; cbn [option_map];
      rewrite Hsc; repeat rewrite orb_true_r; reflexivity.
Qed.

Lemma clean_text_whitespace_only_witness :
  all_space " " = true
  /\ clean_text (Some " ") = ""
  /\ safe_compare (Some "No content") (Some (PyStr " ")) = true.
Proof.
  split; [reflexivity|].
  destruct (clean_text_whitespace_only " " eq_refl) as [_ [_ H]].
  destruct H as [H1 [H2 _]]; [discriminate|]. split; assumption.
Defined.

(** ** Sentinels *)

Section Sentinels.

Lemma safe_compare_unresolved : safe_compare (Some "Unresolved") None = false.
Proof. reflexivity. Qed.

Lemma safe_compare_no_root_cause :
  safe_compare (Some "No root cause provided") None = false.
Proof. reflexivity. Qed.

Lemma safe_compare_no_content : safe_compare (Some "No content") None = false.
Proof. reflexivity. Qed.

Lemma safe_compare_absent_stored (v : value) :
  clean_text (Some (str v)) = "No content" -> safe_compare None (Some v) = false.
Proof.
  intros H. unfold safe_compare. cbn [is_none andb opt_eqb option_map orb].
  rewrite H. reflexivity.
Qed.

Opaque safe_compare comments_modified.

Lemma is_issue_modified_except (field : string) (e : Issue) (n : Jira.Issue) :
  In field compared_fields ->
  unmodified_except field e n = true ->
  is_issue_modified e n
  = safe_compare (Issue_get e field) (comparison_map_get n field).
Proof.
  intros Hin H. rewrite is_issue_modified_fields.
  unfold unmodified_except, comparison_map_get, comparison_map, Issue_get in *.
  simpl in Hin.
  destruct Hin as [<-|[<-|[<-|[<-|[]]]]]; simpl in H |- *;
    apply andb_prop in H; destruct H as [H1 H2];
    apply negb_true_iff in H1; apply negb_true_iff in H2;
    rewrite H2;
    repeat (apply orb_false_elim in H1; destruct H1 as [? H1]);
    repeat match goal with E : safe_compare _ _ = false |- _ =>
      rewrite E; clear E end;
    repeat rewrite orb_false_r; reflexivity.
Qed.

Transparent safe_compare comments_modified.

End Sentinels.

(** C5.  In [is_issue_modified], a stored resolution ["Unresolved"] against
    an absent fetched resolution, a stored root cause ["No content"] against
    an absent fetched root cause, and an absent stored root cause against a
    fetched root cause that [clean_text] turns into ["No content"], are no
    modification: [safe_compare] answers [False] for the field, and the
    ticket is unmodified when no other field and no comment differs. *)
Theorem sentinel_equivalence (e : Issue) (n : Jira.Issue) :
  (resolution e = Some "Unresolved" ->
   Jira.resolution (Jira.fields n) = None ->
   safe_compare (resolution e)
     (option_map PyResource (Jira.resolution (Jira.fields n))) = false
   /\ (unmodified_except "resolution" e n = true -> is_issue_modified e n = false))
  /\ (root_cause e = Some "No content" ->
      Jira.customfield_12602 (Jira.fields n) = None ->
      safe_compare (root_cause e)
        (option_map PyStr (Jira.customfield_12602 (Jira.fields n))) = false
      /\ (unmodified_except "root_cause" e n = true -> is_issue_modified e n = false))
  /\ (forall s : string,
        root_cause e = None ->
        Jira.customfield_12602 (Jira.fields n) = Some s ->
        clean_text (Some s) = "No content" ->
        safe_compare (root_cause e)
          (option_map PyStr (Jira.customfield_12602 (Jira.fields n))) = false
        /\ (unmodified_except "root_cause" e n = true -> is_issue_modified e n = false)).
Proof.
  split; [|split].
  - intros He Hn.
    assert (Hsc : safe_compare (resolution e)
              (option_map PyResource (Jira.resolution (Jira.fields n))) = false)
      by (rewrite He, Hn; reflexivity).
    split; [exact Hsc|]. intros Hu.
    rewrite (@is_issue_modified_except "resolution" e n); auto.
    simpl; auto.
  - intros He Hn.
    assert (Hsc : safe_compare (root_cause e)
              (option_map PyStr (Jira.customfield_12602 (Jira.fields n))) = false)
      by (rewrite He, Hn; reflexivity).
    split; [exact Hsc|]. intros Hu.
    rewrite (@is_issue_modified_except "root_cause" e n); auto.
    simpl; auto.
  - intros s He Hn Hs.
    assert (Hsc : safe_compare (root_cause e)
              (option_map PyStr (Jira.customfield_12602 (Jira.fields n))) = false)
      by (rewrite He, Hn; apply safe_compare_absent_stored; exact Hs).
    split; [exact Hsc|]. intros Hu.
    rewrite (@is_issue_modified_except "root_cause" e n); auto.
    simpl; auto.
Qed.

Lemma sentinel_equivalence_witness :
  is_issue_modified (sample_stored (Some "Unresolved") None [])
    (sample_ticket "OPS-1" (Some "The disk is full") []) = false
  /\ is_issue_modified (sample_stored None (Some "No content") [])
       (sample_ticket "OPS-1" (Some "The disk is full") []) = false
  /\ is_issue_modified (sample_stored None None [])
       {| Jira.key := "OPS-1";
          Jira.fields := sample_fields (Some "The disk is full") None (Some "") [] |}
     = false.
Proof.
  split; [|split].
  - destruct (sentinel_equivalence (sample_stored (Some "Unresolved") None [])
                (sample_ticket "OPS-1" (Some "The disk is full") []))
      as [H _].
    destruct H as [_ H]; [reflexivity|reflexivity|]. apply H. reflexivity.
  - destruct (sentinel_equivalence (sample_stored None (Some "No content") [])
                (sample_ticket "OPS-1" (Some "The disk is full") []))
      as [_ [H _]].
    destruct H as [_ H]; [reflexivity|reflexivity|]. apply H. reflexivity.
  - destruct (sentinel_equivalence (sample_stored None None [])
                {| Jira.key := "OPS-1";
                   Jira.fields :=
                     sample_fields (Some "The disk is full") None (Some "") [] |})
      as [_ [_ H]].
    destruct (H "") as [_ H']; [reflexivity|reflexivity|reflexivity|].
    apply H'. reflexivity.
Defined.

(** C10.  [is_issue_modified] sends each of its four fields through the one
    helper [safe_compare]; for any of the four, a stored value that is one
    of the three sentinels, against an absent fetched value, is no
    modification of that field, and the ticket is unmodified when nothing
    else differs. *)
Theorem sentinels_uniform (e : Issue) (n : Jira.Issue) (field sentinel : string) :
  In field compared_fields ->
  In sentinel sentinels ->
  Issue_get e field = Some sentinel ->
  comparison_map_get n field = None ->
  map fst (comparison_map n) = compared_fields
  /\ fields_modified e n
     = existsb (fun f => safe_compare (Issue_get e f) (comparison_map_get n f))
               compared_fields
  /\ safe_compare (Issue_get e field) (comparison_map_get n field) = false
  /\ (unmodified_except field e n = true -> is_issue_modified e n = false).
Proof.
  intros Hf Hs He Hn.
  assert (Hsc : safe_compare (Issue_get e field) (comparison_map_get n field) = false).
  { rewrite He, Hn. simpl in Hs.
    destruct Hs as [<-|[<-|[<-|[]]]]; reflexivity. }
  split; [reflexivity|]. split; [reflexivity|]. split; [exact Hsc|].
  intros Hu. rewrite (@is_issue_modified_except field e n Hf Hu). exact Hsc.
Qed.

Lemma sentinels_uniform_witness :
  is_issue_modified
    {| key := Some "OPS-1"; summary := Some "No root cause provided";
       reporter := None; description := Some "Unresolved";
       resolution := Some "No content"; root_cause := Some "Unresolved";
       created_at := None; comments := [] |}
    {| Jira.key := "OPS-1";
       Jira.fields :=
         {| Jira.summary := None; Jira.description := None;
            Jira.reporter := None; Jira.resolution := None;
            Jira.customfield_12602 := None; Jira.created := None;
            Jira.comment := [] |} |}
  = false.
Proof.
  apply (@sentinels_uniform _ _ "summary" "No root cause provided");
    simpl; auto.
Defined.

(** ** Comments *)

Section Comments.

Lemma filter_placeholders_idem (cs : list Comment) :
  filter_placeholders (filter_placeholders cs) = filter_placeholders cs.
Proof.
  unfold filter_placeholders.
  induction cs as [|c cs IH]; simpl; auto.
  destruct (negb (opt_eqb (message c) (Some placeholder))) eqn:E; simpl; auto.
  rewrite E, IH. reflexivity.
Qed.

Lemma comments_modified_filtered (cs : list Comment) (ns : list Jira.Comment) :
  comments_modified cs ns = comments_modified (filter_placeholders cs) ns.
Proof. unfold comments_modified. rewrite filter_placeholders_idem. reflexivity. Qed.

Lemma filter_placeholders_drop (c : Comment) (cs : list Comment) :
  message c = Some placeholder ->
  filter_placeholders (c :: cs) = filter_placeholders cs.
Proof. intros H. unfold filter_placeholders. simpl. rewrite H. reflexivity. Qed.

Lemma content_modified_iff (cs : list Comment) (ns : list Jira.Comment) :
  content_modified cs ns = true <->
  exists i old_comment new_comment,
    nth_error cs i = Some old_comment
    /\ nth_error ns i = Some new_comment
    /\ clean_text (get_body old_comment) <> clean_text (Jira.body new_comment).
Proof.
  unfold content_modified. revert ns.
  induction cs as [|c cs IH]; intros ns.
  - simpl. split; [discriminate|].
    intros [i [o [n [H _]]]]. destruct i; discriminate.
  - destruct ns as [|n ns].
    + simpl. split; [discriminate|].
      intros [i [o [n [_ [H _]]]]]. destruct i; discriminate.
    + simpl. rewrite orb_true_iff, IH. split.
      * intros [H|[i [o [m [H1 [H2 H3]]]]]].
        -- exists 0, c, n. simpl. repeat split.
           apply negb_true_iff, String.eqb_neq in H. exact H.
        -- exists (S i), o, m. auto.
      * intros [[|i] [o [m [H1 [H2 H3]]]]]; simpl in H1, H2.
        -- left. injection H1 as <-. injection H2 as <-.
           apply negb_true_iff, String.eqb_neq. exact H3.
        -- right. exists i, o, m. auto.
Qed.

Lemma content_modified_firstn (cs : list Comment) (ns : list Jira.Comment) :
  let m := Nat.min (List.length cs) (List.length ns) in
  content_modified cs ns = content_modified (firstn m cs) (firstn m ns).
Proof.
  intros m. unfold content_modified.
  rewrite <- combine_firstn. unfold m.
  rewrite <- length_combine, firstn_all. reflexivity.
Qed.

Lemma comments_modified_iff (cs : list Comment) (ns : list Jira.Comment) :
  let fs := filter_placeholders cs in
  comments_modified cs ns = true <->
  (List.length fs <> List.length ns /\ (fs <> [] \/ ns <> []))
  \/ (List.length fs = List.length ns
      /\ exists i old_comment new_comment,
           nth_error fs i = Some old_comment
           /\ nth_error ns i = Some new_comment
           /\ clean_text (get_body old_comment)
              <> clean_text (Jira.body new_comment)).
Proof.
  intros fs. unfold comments_modified. fold fs. clearbody fs.
  destruct (Nat.eqb_spec (List.length fs) (List.length ns)) as [E|E].
  - cbn [negb andb]. rewrite <- content_modified_iff.
    destruct ns as [|n ns].
    + destruct fs; [|discriminate E]. simpl. split; [discriminate|].
      intros [[H _]|[_ H]]; [congruence|discriminate].
    + split; [auto|]. intros [[H _]|[_ H]]; [congruence|exact H].
  - assert (Hpos : ((0 <? List.length fs)%nat || (0 <? List.length ns)%nat) = true).
    { destruct fs, ns; simpl in *; auto; congruence. }
    rewrite Hpos. cbn [negb andb]. split; auto.
    intros _. left. split; auto.
    destruct fs; [right|left; discriminate].
    destruct ns; [simpl in E; congruence|discriminate].
Qed.

End Comments.

Section RealComments.

Lemma filter_placeholders_real (cs : list Comment) :
  filter_placeholders cs = real_comments cs.
Proof.
  unfold filter_placeholders.
  induction cs as [|c cs IH]; simpl; auto.
  rewrite IH. unfold is_placeholder.
  destruct (message c) as [m|]; simpl; auto.
  unfold placeholder. destruct (String.eqb m _); reflexivity.
Qed.

Lemma real_comments_app (cs1 cs2 : list Comment) :
  real_comments (cs1 ++ cs2) = (real_comments cs1 ++ real_comments cs2)%list.
Proof.
  induction cs1 as [|c cs1 IH]; simpl; auto.
  destruct (is_placeholder c); simpl; rewrite IH; reflexivity.
Qed.

Lemma is_placeholder_iff (c : Comment) :
  is_placeholder c = true
  <-> message c = Some "No comments found for this issue.".
Proof.
  unfold is_placeholder. destruct (message c) as [m|].
  - rewrite String.eqb_eq. split; congruence.
  - split; discriminate.
Qed.

Lemma real_comments_in (cs : list Comment) (x : Comment) :
  In x (real_comments cs)
  <-> In x cs /\ message x <> Some "No comments found for this issue.".
Proof.
  induction cs as [|c cs IH]; simpl; [tauto|].
  destruct (is_placeholder c) eqn:E.
  - apply is_placeholder_iff in E. rewrite IH. split; [tauto|].
    intros [[<-|H] Hx]; [congruence|auto].
  - simpl. rewrite IH. split; [|tauto].
    intros [<-|H]; [|tauto]. split; auto.
    intros Hm. apply is_placeholder_iff in Hm. congruence.
Qed.

Lemma real_comments_keep (cs : list Comment) :
  Forall (fun x => message x <> Some "No comments found for this issue.") cs ->
  real_comments cs = cs.
Proof.
  induction 1 as [|c cs Hc _ IH]; simpl; auto.
  destruct (is_placeholder c) eqn:E; [|rewrite IH; reflexivity].
  apply is_placeholder_iff in E. contradiction.
Qed.

Lemma clean_get_body (c : Comment) :
  clean_text (get_body c) = clean_text (body c).
Proof. unfold get_body. destruct (body c); reflexivity. Qed.

Lemma content_modified_positions (fs : list Comment) (ns : list Jira.Comment) :
  content_modified fs ns = true
  <-> exists i old_comment new_comment,
        nth_error fs i = Some old_comment
        /\ nth_error ns i = Some new_comment
        /\ clean_text (body old_comment) <> clean_text (Jira.body new_comment).
Proof.
  rewrite content_modified_iff.
  split; intros [i [o [n [H1 [H2 H3]]]]]; exists i, o, n;
    rewrite clean_get_body in *; auto.
Qed.

Lemma comments_modified_real (cs : list Comment) (ns : list Jira.Comment) :
  comments_modified cs ns = true
  <-> (List.length (real_comments cs) <> List.length ns
       /\ (real_comments cs <> [] \/ ns <> []))
      \/ (List.length (real_comments cs) = List.length ns
          /\ exists i old_comment new_comment,
               nth_error (real_comments cs) i = Some old_comment
               /\ nth_error ns i = Some new_comment
               /\ clean_text (body old_comment)
                  <> clean_text (Jira.body new_comment)).
Proof.
  pose proof (comments_modified_iff cs ns) as H. cbv zeta in H.
  rewrite filter_placeholders_real in H. rewrite H.
  rewrite <- content_modified_iff, <- content_modified_positions. tauto.
Qed.

Lemma comments_modified_drop (c : Comment) (cs1 cs2 : list Comment)
  (ns : list Jira.Comment) :
  message c = Some "No comments found for this issue." ->
  comments_modified (cs1 ++ c :: cs2) ns = comments_modified (cs1 ++ cs2) ns.
Proof.
  intros Hc. unfold comments_modified.
  rewrite !filter_placeholders_real, !real_comments_app. simpl.
  rewrite (proj2 (is_placeholder_iff c) Hc). reflexivity.
Qed.

End RealComments.

(** C6.  The comment half of [is_issue_modified] flags a modification
    exactly when the number of stored comments that are not placeholders
    differs from the number of fetched comments and one side is not empty,
    or the numbers agree and at some position the cleaned stored body
    differs from the cleaned fetched body.  The stored comments that count
    are those whose ['message'] entry is not the placeholder text, wherever
    they stand.  Bodies are compared position by position, nothing beyond
    the shorter list is looked at, and a stored ["foo"] against a fetched
    ["foo\r\n"] flags nothing. *)
Theorem comment_comparison (e : Issue) (n : Jira.Issue)
  (cs : list Comment) (ns : list Jira.Comment) :
  is_issue_modified e n
  = fields_modified e n
    || comments_modified (comments e) (Jira.comment (Jira.fields n))
  /\ (let fs := real_comments cs in
      comments_modified cs ns = true <->
      (List.length fs <> List.length ns /\ (fs <> [] \/ ns <> []))
      \/ (List.length fs = List.length ns
          /\ exists i old_comment new_comment,
               nth_error fs i = Some old_comment
               /\ nth_error ns i = Some new_comment
               /\ clean_text (body old_comment)
                  <> clean_text (Jira.body new_comment)))
  /\ (forall x, In x (real_comments cs)
                <-> In x cs
                    /\ message x <> Some "No comments found for this issue.")
  /\ (content_modified cs ns = true <->
      exists i old_comment new_comment,
        nth_error cs i = Some old_comment
        /\ nth_error ns i = Some new_comment
        /\ clean_text (body old_comment) <> clean_text (Jira.body new_comment))
  /\ (let m := Nat.min (List.length cs) (List.length ns) in
      content_modified cs ns = content_modified (firstn m cs) (firstn m ns))
  /\ clean_text (Some "foo") = "foo"
  /\ clean_text (Some ("foo" ++ crlf)) = "foo"
  /\ comments_modified [stored_comment (Some "foo") None]
       [fetched_comment ("foo" ++ crlf)] = false
  /\ comments_modified
       [stored_comment (Some "foo") None;
        stored_comment None (Some "No comments found for this issue.");
        stored_comment (Some "bar") None]
       [fetched_comment "foo"; fetched_comment "bar"] = false
  /\ comments_modified
       [stored_comment (Some "foo") None;
        stored_comment None (Some "No comments found for this issue.")]
       [fetched_comment "foo"; fetched_comment "bar"] = true.
Proof.
  split.
  - unfold is_issue_modified. destruct (fields_modified e n); reflexivity.
  - split; [apply comments_modified_real|].
    split; [apply real_comments_in|].
    split; [apply content_modified_positions|].
    split; [apply content_modified_firstn|].
    repeat split.
Qed.

(** C3, amended.  The stored comments dropped before the count comparison
    are those whose ['message'] entry is the placeholder text, at every
    position of the list: the filter of the code keeps exactly the other
    comments, in their order, and the comment half of [is_issue_modified]
    sees the stored list only through it.  A stored list made of such
    entries only counts as empty, and with no fetched comment it flags
    nothing. *)
Theorem placeholder_filtering (c : Comment) (cs1 cs2 : list Comment)
  (ns : list Jira.Comment) (e : Issue) (n : Jira.Issue) :
  message c = Some "No comments found for this issue." ->
  (forall cs, filter_placeholders cs = real_comments cs)
  /\ (forall cs x,
        In x (real_comments cs)
        <-> In x cs /\ message x <> Some "No comments found for this issue.")
  /\ (forall cs,
        Forall (fun x => message x <> Some "No comments found for this issue.")
               cs ->
        filter_placeholders cs = cs)
  /\ filter_placeholders (cs1 ++ c :: cs2) = filter_placeholders (cs1 ++ cs2)
  /\ comments_modified (cs1 ++ c :: cs2) ns = comments_modified (cs1 ++ cs2) ns
  /\ (forall cs, comments_modified cs ns = comments_modified (real_comments cs) ns)
  /\ (forall cs, real_comments cs = [] -> comments_modified cs [] = false)
  /\ filter_placeholders [c] = []
  /\ comments_modified [c] [] = false
  /\ (comments e = [c] ->
      Jira.comment (Jira.fields n) = [] ->
      is_issue_modified e n = fields_modified e n).
Proof.
  intros Hc.
  pose proof (proj2 (is_placeholder_iff c) Hc) as Hp.
  assert (Hone : comments_modified [c] [] = false).
  { exact (eq_trans (comments_modified_drop c [] [] [] Hc) eq_refl). }
  split; [exact filter_placeholders_real|].
  split; [exact real_comments_in|].
  split; [intros cs H; rewrite filter_placeholders_real;
          apply real_comments_keep, H|].
  split.
  { rewrite !filter_placeholders_real, !real_comments_app. simpl.
    rewrite Hp. reflexivity. }
  split; [apply comments_modified_drop, Hc|].
  split.
  { intros cs. rewrite <- filter_placeholders_real.
    apply comments_modified_filtered. }
  split.
  { intros cs H. unfold comments_modified.
    rewrite filter_placeholders_real, H. reflexivity. }
  split; [rewrite filter_placeholders_real; simpl; rewrite Hp; reflexivity|].
  split; [exact Hone|].
  intros He Hn. unfold is_issue_modified. rewrite He, Hn, Hone.
  destruct (fields_modified e n); reflexivity.
Qed.

Lemma placeholder_filtering_witness :
  is_issue_modified
    (sample_stored None None [stored_comment None (Some placeholder)])
    (sample_ticket "OPS-1" (Some "The disk is full") [])
  = false
  /\ comments_modified
       [stored_comment (Some "foo") None;
        stored_comment None (Some placeholder);
        stored_comment (Some "bar") None]
       [fetched_comment "foo"; fetched_comment "bar"]
     = comments_modified
         [stored_comment (Some "foo") None; stored_comment (Some "bar") None]
         [fetched_comment "foo"; fetched_comment "bar"].
Proof.
  split.
  - destruct (placeholder_filtering
                (stored_comment None (Some placeholder)) [] [] []
                (sample_stored None None [stored_comment None (Some placeholder)])
                (sample_ticket "OPS-1" (Some "The disk is full") [])
                eq_refl) as [_ [_ [_ [_ [_ [_ [_ [_ [_ H]]]]]]]]].
    rewrite H; reflexivity.
  - destruct (placeholder_filtering
                (stored_comment None (Some placeholder))
                [stored_comment (Some "foo") None]
                [stored_comment (Some "bar") None]
                [fetched_comment "foo"; fetched_comment "bar"]
                (sample_stored None None [])
                (sample_ticket "OPS-1" (Some "The disk is full") [])
                eq_refl) as [_ [_ [_ [_ [H _]]]]].
    exact H.
Defined.

(** C3 as stated fails: a stored comment whose body is the placeholder text
    is not filtered out; with no fetched comment and every compared field
    equal, the ticket counts as modified. *)
Lemma placeholder_body_not_filtered :
  body (stored_comment (Some placeholder) None)
  = Some "No comments found for this issue."
  /\ filter_placeholders [stored_comment (Some placeholder) None]
     = [stored_comment (Some placeholder) None]
  /\ fields_modified
       (sample_stored None None [stored_comment (Some placeholder) None])
       (sample_ticket "OPS-1" (Some "The disk is full") []) = false
  /\ is_issue_modified
       (sample_stored None None [stored_comment (Some placeholder) None])
       (sample_ticket "OPS-1" (Some "The disk is full") []) = true.
Proof. repeat split. Qed.

(** ** Loading *)

Section Loading.

Lemma dict_get_none (V : Type) (d : dict V) (k : string) :
  dict_get d k = None <-> ~ In k (dict_keys d).
Proof.
  induction d as [|[k' v] d IH]; simpl.
  - split; auto.
  - destruct (String.eqb_spec k' k) as [E|E].
    + split; [discriminate|]. intros H. exfalso. apply H. auto.
    + rewrite IH. split; [intros H [H'|H']; auto|auto].
Qed.

Lemma dict_get_some (V : Type) (d : dict V) (k : string) (v : V) :
  dict_get d k = Some v -> In k (dict_keys d) /\ In v (dict_values d).
Proof.
  induction d as [|[k' v'] d IH]; simpl; [discriminate|].
  destruct (String.eqb_spec k' k) as [E|E].
  - intros H. injection H as <-. auto.
  - intros H. destruct (IH H). auto.
Qed.

Lemma dict_set_keys_in (V : Type) (d : dict V) (k : string) (v : V) (x : string) :
  In x (dict_keys (dict_set d k v)) -> x = k \/ In x (dict_keys d).
Proof.
  induction d as [|[k' v'] d IH]; simpl.
  - intros [H|[]]; auto.
  - destruct (String.eqb_spec k' k) as [E|E]; simpl.
    + intros [H|H]; auto.
    + intros [H|H]; auto. destruct (IH H); auto.
Qed.

Lemma dict_set_wf (d : dict Issue) (k : string) (issue : Issue) :
  wf_dict d -> key issue = Some k -> wf_dict (dict_set d k issue).
Proof.
  intros [Hnd Hk] Hi. induction d as [|[k' v'] d IH]; simpl.
  - split; repeat constructor; auto.
  - inversion Hnd as [|? ? Hnotin Hnd']; subst.
    inversion Hk as [|? ? Hk0 Hk']; subst.
    destruct (String.eqb_spec k' k) as [E|E].
    + subst k'. split; simpl; [exact Hnd|]. constructor; auto.
    + destruct (IH Hnd' Hk') as [IH1 IH2].
      split; simpl; [|constructor; auto].
      constructor; auto. intros Hin.
      apply dict_set_keys_in in Hin. destruct Hin; auto.
Qed.

Lemma index_by_key_wf (existing_data : list Issue) (acc d : dict Issue) :
  wf_dict acc -> index_by_key existing_data acc = Ok d -> wf_dict d.
Proof.
  revert acc. induction existing_data as [|issue rest IH]; simpl; intros acc Hacc H.
  - injection H as <-. exact Hacc.
  - unfold item_key in H. destruct (key issue) as [k|] eqn:Hk; simpl in H.
    + apply (IH _ (dict_set_wf acc k issue Hacc Hk) H).
    + discriminate.
Qed.

Lemma index_by_key_ok (existing_data : list Issue) (acc : dict Issue) :
  Forall keyed existing_data -> exists d, index_by_key existing_data acc = Ok d.
Proof.
  revert acc. induction existing_data as [|issue rest IH]; simpl; intros acc H.
  - eauto.
  - inversion H as [|? ? Hi Hrest]; subst. unfold item_key, keyed in *.
    destruct (key issue) as [k|]; [simpl; auto|congruence].
Qed.

Lemma index_by_key_raise (existing_data : list Issue) (acc : dict Issue) :
  Exists (fun issue => key issue = None) existing_data ->
  index_by_key existing_data acc = Raise (KeyError "key").
Proof.
  revert acc. induction existing_data as [|issue rest IH]; simpl; intros acc H.
  - inversion H.
  - unfold item_key. destruct (key issue) as [k|] eqn:Hk; simpl; auto.
    inversion H as [? ? H0|? ? H0]; subst; [congruence|auto].
Qed.

Lemma load_existing_data_wf (output_file : option (list Issue)) (d : dict Issue) :
  load_existing_data output_file = Ok d -> wf_dict d.
Proof.
  assert (Hnil : wf_dict []) by (split; constructor).
  destruct output_file as [existing_data|]; simpl.
  - apply index_by_key_wf, Hnil.
  - intros H. injection H as <-. exact Hnil.
Qed.

Lemma wf_count_absent (d : dict Issue) (k : string) :
  wf_dict d -> ~ In k (dict_keys d) -> count_key k (dict_values d) = 0.
Proof.
  intros [_ Hk] Hin. unfold count_key.
  induction d as [|[k' v'] d IH]; simpl in *; auto.
  inversion Hk as [|? ? Hk0 Hk']; subst. simpl in Hk0.
  unfold has_key at 1. rewrite Hk0. simpl.
  destruct (String.eqb_spec k' k) as [E|E]; [exfalso; auto|].
  apply IH; auto.
Qed.

Lemma wf_count_present (d : dict Issue) (k : string) :
  wf_dict d -> In k (dict_keys d) -> count_key k (dict_values d) = 1.
Proof.
  intros [Hnd Hk] Hin.
  induction d as [|[k' v'] d IH]; simpl in *; [contradiction|].
  inversion Hnd as [|? ? Hnotin Hnd']; subst.
  inversion Hk as [|? ? Hk0 Hk']; subst. simpl in Hk0.
  unfold count_key in *. simpl. unfold has_key at 1. rewrite Hk0. simpl.
  destruct (String.eqb_spec k' k) as [E|E].
  - subst k'. simpl. f_equal.
    apply (@wf_count_absent d k); [split; auto|auto].
  - destruct Hin as [Hin|Hin]; [congruence|]. apply IH; auto.
Qed.

Lemma wf_values_keyed (d : dict Issue) :
  wf_dict d -> Forall keyed (dict_values d).
Proof.
  intros [_ Hk]. induction Hk as [|[k v] d H Hk IH]; simpl; constructor; auto.
  unfold keyed. simpl in H. congruence.
Qed.

Lemma merge_inv_init (d : dict Issue) :
  wf_dict d -> merge_inv d (dict_values d, []).
Proof.
  intros H. split; simpl.
  - apply wf_values_keyed, H.
  - intros k Hk. apply wf_count_present; auto.
Qed.

End Loading.

(** ** The merge loop *)

Section Merge.

Lemma drop_key_filter (updated_issues : list Issue) (k : string) :
  Forall keyed updated_issues ->
  drop_key updated_issues k
  = Ok (filter (fun issue => negb (has_key k issue)) updated_issues).
Proof.
  induction updated_issues as [|issue rest IH]; simpl; intros H; auto.
  inversion H as [|? ? Hi Hrest]; subst.
  unfold item_key, keyed, has_key in *.
  destruct (key issue) as [k'|]; [|congruence].
  simpl. rewrite (IH Hrest). simpl.
  destruct (String.eqb k' k); reflexivity.
Qed.

Lemma filter_split_length (A : Type) (f : A -> bool) (l : list A) :
  List.length l
  = List.length (filter f l) + List.length (filter (fun x => negb (f x)) l).
Proof.
  induction l as [|x l IH]; simpl; auto.
  destruct (f x); simpl; lia.
Qed.

Lemma count_key_app (k : string) (l1 l2 : list Issue) :
  count_key k (l1 ++ l2) = count_key k l1 + count_key k l2.
Proof. unfold count_key. rewrite filter_app, length_app. reflexivity. Qed.

Lemma count_key_drop_same (k : string) (l : list Issue) :
  count_key k (filter (fun issue => negb (has_key k issue)) l) = 0.
Proof.
  unfold count_key. induction l as [|x l IH]; simpl; auto.
  destruct (has_key k x) eqn:E; simpl; auto. rewrite E. exact IH.
Qed.

Lemma has_key_unique (k k' : string) (issue : Issue) :
  has_key k issue = true -> has_key k' issue = true -> k = k'.
Proof.
  unfold has_key. destruct (key issue) as [x|]; simpl; [|discriminate].
  intros H1 H2. apply String.eqb_eq in H1, H2. congruence.
Qed.

Lemma count_key_drop_other (k k' : string) (l : list Issue) :
  k <> k' ->
  count_key k' (filter (fun issue => negb (has_key k issue)) l) = count_key k' l.
Proof.
  intros Hne. unfold count_key. induction l as [|x l IH]; simpl; auto.
  destruct (has_key k x) eqn:E; simpl.
  - destruct (has_key k' x) eqn:E'; auto.
    exfalso. apply Hne. apply (has_key_unique k k' x E E').
  - destruct (has_key k' x); simpl; auto.
Qed.

Lemma extract_has_key (t : Jira.Issue) (k : string) :
  has_key k (extract_issue_data t) = String.eqb (Jira.key t) k.
Proof. reflexivity. Qed.

Lemma extract_keyed (t : Jira.Issue) : keyed (extract_issue_data t).
Proof. unfold keyed. simpl. discriminate. Qed.

Lemma count_key_extract (k : string) (t : Jira.Issue) :
  count_key k [extract_issue_data t] = if String.eqb (Jira.key t) k then 1 else 0.
Proof.
  unfold count_key. simpl. rewrite extract_has_key.
  destruct (String.eqb (Jira.key t) k); reflexivity.
Qed.

(** One round of the inner loop never raises, keeps the invariant, never
    shortens [updated_issues] and leaves the records of other keys in
    place. *)
Lemma process_issue_inv (d : dict Issue) (st : state) (t : Jira.Issue) :
  merge_inv d st ->
  exists st',
    process_issue d st t = Ok st'
    /\ merge_inv d st'
    /\ List.length (fst st) <= List.length (fst st')
    /\ forall issue, In issue (fst st) ->
                     has_key (Jira.key t) issue = false -> In issue (fst st').
Proof.
  destruct st as [u log]. intros [Hkeyed Hcount]. simpl in *.
  unfold process_issue.
  destruct (dict_get d (Jira.key t)) as [e|] eqn:Hget.
  - destruct (is_issue_modified e t).
    + rewrite (drop_key_filter u (Jira.key t) Hkeyed). simpl.
      eexists. split; [reflexivity|]. simpl.
      apply dict_get_some in Hget. destruct Hget as [Hin _].
      split; [split|split]; simpl.
      * apply Forall_app. split.
        -- apply Forall_forall. intros x Hx. apply filter_In in Hx.
           destruct Hx as [Hx _]. rewrite Forall_forall in Hkeyed. auto.
        -- constructor; [apply extract_keyed|constructor].
      * intros k Hk. rewrite count_key_app, count_key_extract.
        destruct (String.eqb_spec (Jira.key t) k) as [E|E].
        -- subst k. rewrite count_key_drop_same. reflexivity.
        -- rewrite (count_key_drop_other _ _ u E), (Hcount k Hk). reflexivity.
      * rewrite length_app. simpl.
        pose proof (filter_split_length Issue (has_key (Jira.key t)) u) as Hlen.
        pose proof (Hcount _ Hin) as H1. unfold count_key in H1. lia.
      * intros issue Hi Hk. apply in_or_app. left.
        apply filter_In. split; auto. rewrite Hk. reflexivity.
    + eexists. split; [reflexivity|]. simpl. repeat split; auto.
  - eexists. split; [reflexivity|]. simpl.
    apply dict_get_none in Hget.
    split; [split|split]; simpl.
    + apply Forall_app. split; auto.
      constructor; [apply extract_keyed|constructor].
    + intros k Hk. rewrite count_key_app, count_key_extract, (Hcount k Hk).
      destruct (String.eqb_spec (Jira.key t) k) as [E|E]; [|reflexivity].
      subst k. contradiction.
    + rewrite length_app. lia.
    + intros issue Hi _. apply in_or_app. auto.
Qed.

Lemma process_batch_inv (d : dict Issue) (batch : list Jira.Issue) (st : state) :
  merge_inv d st ->
  exists st',
    process_batch d st batch = Ok st'
    /\ merge_inv d st'
    /\ List.length (fst st) <= List.length (fst st')
    /\ forall issue,
         In issue (fst st) ->
         (forall t, In t batch -> has_key (Jira.key t) issue = false) ->
         In issue (fst st').
Proof.
  revert st. induction batch as [|t rest IH]; intros st Hinv.
  - exists st. simpl. repeat split; auto; apply Hinv.
  - destruct (process_issue_inv d st t Hinv) as [st1 [H1 [Hinv1 [Hlen1 Hkeep1]]]].
    destruct (IH st1 Hinv1) as [st2 [H2 [Hinv2 [Hlen2 Hkeep2]]]].
    exists st2. simpl. rewrite H1. simpl.
    split; [exact H2|]. split; [exact Hinv2|]. split; [lia|].
    intros issue Hi Hk. apply Hkeep2.
    + apply Hkeep1; [exact Hi|apply Hk; simpl; auto].
    + intros t' Ht'. apply Hk. simpl. auto.
Qed.

Lemma process_batches_concat (d : dict Issue) (batches : list (list Jira.Issue))
  (st : state) :
  process_batches d st batches = process_batch d st (List.concat batches).
Proof.
  revert st. induction batches as [|batch rest IH]; intros st; simpl; auto.
  assert (Happ : forall b1 b2 s,
             process_batch d s (b1 ++ b2)
             = bind (process_batch d s b1) (fun s' => process_batch d s' b2)).
  { induction b1 as [|t b1 IHb]; intros b2 s; simpl; auto.
    destruct (process_issue d s t); simpl; auto. }
  rewrite Happ. destruct (process_batch d st batch); simpl; auto.
Qed.

Lemma sync_is_merge (output_file : option (list Issue))
  (batches : list (list Jira.Issue)) :
  sync_jira_issues output_file batches
  = bind (load_existing_data output_file)
         (fun existing_issues => merge existing_issues (List.concat batches)).
Proof.
  unfold sync_jira_issues, merge.
  destruct (load_existing_data output_file); simpl; auto.
  apply process_batches_concat.
Qed.

End Merge.

(** C8.  Whatever collection was loaded and whatever pages are fetched, the
    merge returns a result; the result has at least as many records as the
    loaded collection, and every stored record whose key is not among the
    fetched keys is still in it, unchanged. *)
Theorem merge_never_deletes (output_file : option (list Issue))
  (existing_issues : dict Issue) (batches : list (list Jira.Issue)) :
  load_existing_data output_file = Ok existing_issues ->
  exists updated_issues log,
    sync_jira_issues output_file batches = Ok (updated_issues, log)
    /\ merge existing_issues (List.concat batches) = Ok (updated_issues, log)
    /\ List.length existing_issues <= List.length updated_issues
    /\ forall issue k,
         In issue (dict_values existing_issues) ->
         key issue = Some k ->
         ~ In k (map Jira.key (List.concat batches)) ->
         In issue updated_issues.
Proof.
  intros Hload.
  pose proof (load_existing_data_wf output_file existing_issues Hload) as Hwf.
  destruct (process_batch_inv existing_issues (List.concat batches)
              (dict_values existing_issues, [])
              (merge_inv_init existing_issues Hwf))
    as [[u log] [Hrun [_ [Hlen Hkeep]]]].
  exists u, log. simpl in *.
  split; [rewrite sync_is_merge, Hload; exact Hrun|].
  split; [exact Hrun|]. split.
  - unfold dict_values in Hlen. rewrite length_map in Hlen. exact Hlen.
  - intros issue k Hin Hk Hnot. apply Hkeep; auto.
    intros t Ht. unfold has_key. rewrite Hk. simpl.
    apply String.eqb_neq. intros E. apply Hnot. subst k.
    apply in_map. exact Ht.
Qed.

Lemma merge_never_deletes_witness :
  exists updated_issues log,
    sync_jira_issues
      (Some [extract_issue_data ticket_blank; extract_issue_data ticket_plain])
      [[ticket_blank]]
    = Ok (updated_issues, log)
    /\ 2 <= List.length updated_issues
    /\ In (extract_issue_data ticket_plain) updated_issues.
Proof.
  destruct (merge_never_deletes
              (Some [extract_issue_data ticket_blank;
                     extract_issue_data ticket_plain])
              [("OPS-1", extract_issue_data ticket_blank);
               ("OPS-2", extract_issue_data ticket_plain)]
              [[ticket_blank]] eq_refl)
    as [u [log [Hsync [_ [Hlen Hkeep]]]]].
  exists u, log. split; [exact Hsync|]. split; [exact Hlen|].
  apply (Hkeep _ "OPS-2"); simpl; auto.
  intros [H|[]]; discriminate.
Defined.

(** C2, amended.  A stored record without a ['key'] entry is not skipped:
    [load_existing_data] raises [KeyError] on it, and the run stops there,
    before any page is asked for and before any ticket is merged or
    written, whatever the pages, the batch size and the limit. *)
Theorem missing_key_raises (existing_data : list Issue)
  (batches : list (list Jira.Issue))
  (search_issues : Z -> Z -> list Jira.Issue) (batch_size max_issues : Z) :
  Exists (fun issue => key issue = None) existing_data ->
  load_existing_data (Some existing_data) = Raise (KeyError "key")
  /\ sync_jira_issues (Some existing_data) batches = Raise (KeyError "key")
  /\ sync_jira_issues_paged (Some existing_data) search_issues
       batch_size max_issues
     = Failed (Raised (KeyError "key")).
Proof.
  intros H.
  unfold sync_jira_issues_paged, sync_jira_issues, load_existing_data.
  rewrite (index_by_key_raise existing_data [] H). auto.
Qed.

Lemma missing_key_raises_witness :
  load_existing_data (Some [sample_stored None None []; keyless_record])
  = Raise (KeyError "key")
  /\ sync_jira_issues (Some [sample_stored None None []; keyless_record]) []
     = Raise (KeyError "key")
  /\ sync_jira_issues_paged (Some [sample_stored None None []; keyless_record])
       (window [ticket_plain]) 0 11000
     = Failed (Raised (KeyError "key")).
Proof.
  apply (missing_key_raises [sample_stored None None []; keyless_record] []
           (window [ticket_plain]) 0 11000).
  apply Exists_cons_tl, Exists_cons_hd. reflexivity.
Defined.

(** C2 as stated fails: one stored record without a key makes the whole run
    raise, also when the other records are sound and nothing is fetched. *)
Lemma missing_key_aborts_run :
  key keyless_record = None
  /\ sync_jira_issues (Some [sample_stored None None []; keyless_record])
       [[ticket_plain]]
     = Raise (KeyError "key").
Proof. split; reflexivity. Qed.

(** C4 fails on the code: a new key delivered twice, in one page or in two,
    is appended twice and announced twice, and the written list holds the
    key twice. *)
Theorem duplicate_new_key_added_twice :
  dict_mem ([] : dict Issue) (Jira.key ticket_plain) = false
  /\ sync_jira_issues None [[ticket_plain; ticket_plain]]
     = Ok ([extract_issue_data ticket_plain; extract_issue_data ticket_plain],
           [Added "OPS-2"; Added "OPS-2"])
  /\ sync_jira_issues None [[ticket_plain]; [ticket_plain]]
     = Ok ([extract_issue_data ticket_plain; extract_issue_data ticket_plain],
           [Added "OPS-2"; Added "OPS-2"])
  /\ ~ NoDup (map key [extract_issue_data ticket_plain;
                       extract_issue_data ticket_plain]).
Proof.
  repeat split.
  intros H. inversion H as [|? ? Hnotin _]. apply Hnotin. simpl. auto.
Qed.

(** C1 fails on the code: the stored collection holds exactly the records
    the two fetched tickets extract to, and the merge still announces an
    update and moves the record to the end.  The description of the ticket
    is a single space: it is stored as the empty string, which the
    comparison cleans a second time into ["No content"]. *)
Theorem merge_not_idempotent :
  load_existing_data
    (Some [extract_issue_data ticket_blank; extract_issue_data ticket_plain])
  = Ok [("OPS-1", extract_issue_data ticket_blank);
        ("OPS-2", extract_issue_data ticket_plain)]
  /\ description (extract_issue_data ticket_blank) = Some ""
  /\ is_issue_modified (extract_issue_data ticket_blank) ticket_blank = true
  /\ sync_jira_issues
       (Some [extract_issue_data ticket_blank; extract_issue_data ticket_plain])
       [[ticket_blank; ticket_plain]]
     = Ok ([extract_issue_data ticket_plain; extract_issue_data ticket_blank],
           [Updated "OPS-1"]).
Proof. repeat split. Qed.

(** ** Where the merge does repeat itself

    A phantom update needs a text that [clean_text] does not clean to a
    fixed point.  On tickets without such a text the merge of a collection
    with its own source changes nothing. *)

Section Idempotence.

Lemma safe_compare_some_some (x : string) (v : value) :
  safe_compare (Some x) (Some v)
  = negb (String.eqb (clean_text (Some x)) (clean_text (Some (str v)))).
Proof.
  unfold safe_compare. cbn [is_none option_map opt_eqb andb].
  rewrite !andb_false_r. reflexivity.
Qed.

Lemma safe_compare_cleaned (text : option string) :
  stable_text text ->
  safe_compare (Some (clean_text text)) (option_map PyStr text) = false.
Proof.
  destruct text as [s|]; intros H; [|reflexivity].
  cbn [option_map]. rewrite safe_compare_some_some. cbn [str].
  unfold stable_text in H. rewrite H.
  rewrite String.eqb_refl. reflexivity.
Qed.

Lemma safe_compare_custom_field (t : Jira.Issue) :
  stable_text (Jira.customfield_12602 (Jira.fields t)) ->
  safe_compare (get_custom_field_value t "customfield_12602")
    (option_map PyStr (Jira.customfield_12602 (Jira.fields t))) = false.
Proof.
  unfold get_custom_field_value.
  change (getattr_fields (Jira.fields t) "customfield_12602")
    with (Jira.customfield_12602 (Jira.fields t)).
  destruct (Jira.customfield_12602 (Jira.fields t)) as [[|c s]|]; intros H.
  - reflexivity.
  - cbn [truthy]. apply (safe_compare_cleaned (Some (String c s)) H).
  - reflexivity.
Qed.

Lemma safe_compare_resolution (r : option Jira.Resource) :
  match r with
  | Some r => clean_text (Some (Jira.name r)) = clean_text (Some (Jira.to_str r))
  | None => True
  end ->
  safe_compare (option_map Jira.name r) (option_map PyResource r) = false.
Proof.
  destruct r as [r|]; intros H; [|reflexivity].
  cbn [option_map]. rewrite safe_compare_some_some. cbn [str]. rewrite H.
  rewrite String.eqb_refl. reflexivity.
Qed.

Lemma stored_form_kept (ns : list Jira.Comment) :
  filter_placeholders (stored_form ns) = stored_form ns.
Proof.
  unfold filter_placeholders, stored_form.
  induction ns as [|n ns IH]; simpl; [|rewrite IH]; reflexivity.
Qed.

Lemma stored_form_content (ns : list Jira.Comment) :
  Forall (fun comment => stable_text (Jira.body comment)) ns ->
  content_modified (stored_form ns) ns = false.
Proof.
  unfold content_modified, stored_form.
  induction 1 as [|n ns Hn Hns IH]; simpl; auto.
  rewrite IH, orb_false_r. apply negb_false_iff, String.eqb_eq.
  unfold get_body. simpl body.
  destruct (Jira.body n) as [s|]; [exact Hn|reflexivity].
Qed.

Lemma stored_form_comments (ns : list Jira.Comment) :
  Forall (fun comment => stable_text (Jira.body comment)) ns ->
  comments_modified (stored_form ns) ns = false.
Proof.
  intros H. unfold comments_modified. rewrite stored_form_kept.
  unfold stored_form at 1. rewrite length_map, Nat.eqb_refl.
  cbn [negb andb]. rewrite (stored_form_content ns H).
  destruct ns; reflexivity.
Qed.

Lemma unmodified_after_extract (t : Jira.Issue) :
  stable_ticket t -> is_issue_modified (extract_issue_data t) t = false.
Proof.
  intros [Hs [Hd [Hc [Hr Hm]]]]. rewrite is_issue_modified_fields.
  cbn [extract_issue_data summary description resolution root_cause comments].
  rewrite (safe_compare_cleaned _ Hs), (safe_compare_cleaned _ Hd).
  rewrite (safe_compare_resolution _ Hr), (safe_compare_custom_field t Hc).
  cbn [orb]. apply (stored_form_comments _ Hm).
Qed.

Lemma wf_dict_lookup (d : dict Issue) (issue : Issue) (k : string) :
  wf_dict d -> In issue (dict_values d) -> key issue = Some k ->
  dict_get d k = Some issue.
Proof.
  intros [Hnd Hk]. induction d as [|[k' v'] d IH]; simpl; [contradiction|].
  inversion Hnd as [|? ? Hnotin Hnd']; subst.
  inversion Hk as [|? ? Hk0 Hk']; subst. simpl in Hk0.
  intros [E|Hin] Hkey.
  - subst v'. assert (k' = k) by congruence. subst k'.
    rewrite String.eqb_refl. reflexivity.
  - destruct (String.eqb_spec k' k) as [E|E]; [|auto].
    exfalso. subst k'. apply Hnotin.
    clear - Hin Hkey Hk'. induction d as [|[k1 v1] d IH]; simpl in *; auto.
    inversion Hk' as [|? ? H1 H2]; subst. simpl in H1.
    destruct Hin as [E|Hin]; [left; congruence|right; auto].
Qed.

(** Merging a collection with tickets it already holds in extracted form
    changes nothing and announces nothing, provided the tickets are
    stable. *)
Lemma merge_idempotent_on_stable (d : dict Issue) (fetched : list Jira.Issue) :
  wf_dict d ->
  Forall (fun t => In (extract_issue_data t) (dict_values d)) fetched ->
  Forall stable_ticket fetched ->
  merge d fetched = Ok (dict_values d, []).
Proof.
  intros Hwf Hin Hst. unfold merge.
  assert (Hany : forall st : state, process_batch d st fetched = Ok st);
    [|apply Hany].
  induction Hin as [|t rest Ht Hrest IH]; intros st; simpl; auto.
  inversion Hst as [|? ? Hs Hs']; subst.
  unfold process_issue. destruct st as [u log].
  rewrite (wf_dict_lookup d (extract_issue_data t) (Jira.key t) Hwf Ht eq_refl).
  rewrite (unmodified_after_extract t Hs). simpl. apply IH, Hs'.
Qed.

End Idempotence.

(** ** Where the merge does keep keys unique

    A double insertion needs a key that is fetched twice.  When the fetched
    keys are distinct, the keys of the result are distinct, no event is
    repeated, and every new ticket is inserted and announced. *)

Section DistinctKeys.

Lemma distinct_inv_keyed (d : dict Issue) (seen : list Jira.Issue) (st : state) :
  distinct_inv d seen st -> Forall keyed (fst st).
Proof.
  intros [_ [Hb _]]. apply Forall_forall. intros issue Hin.
  destruct (Hb issue Hin) as [k [Hk _]]. unfold keyed. congruence.
Qed.

Lemma NoDup_map_filter (A B : Type) (f : A -> B) (g : A -> bool) (l : list A) :
  NoDup (map f l) -> NoDup (map f (filter g l)).
Proof.
  induction l as [|x l IH]; simpl; auto.
  intros H. inversion H as [|? ? Hnotin Hnd]; subst.
  destruct (g x); simpl; auto. constructor; auto.
  intros Hin. apply Hnotin. apply in_map_iff in Hin.
  destruct Hin as [y [Hy Hin]]. apply filter_In in Hin.
  apply in_map_iff. exists y. tauto.
Qed.

Lemma NoDup_snoc (A : Type) (l : list A) (x : A) :
  NoDup l -> ~ In x l -> NoDup (l ++ [x]).
Proof.
  intros Hl Hx. apply NoDup_app; auto.
  - repeat constructor. auto.
  - intros a Ha [E|[]]. subst. auto.
Qed.

Lemma wf_values_keys (d : dict Issue) :
  wf_dict d -> map key (dict_values d) = map Some (dict_keys d).
Proof.
  intros [_ Hk]. induction Hk as [|[k v] d H Hk IH]; simpl; auto.
  simpl in H. rewrite H, IH. reflexivity.
Qed.

Lemma distinct_inv_init (d : dict Issue) :
  wf_dict d -> distinct_inv d [] (dict_values d, []).
Proof.
  intros Hwf. pose proof (wf_values_keys d Hwf) as Hkeys.
  destruct Hwf as [Hnd Hk]. repeat split; simpl; try contradiction.
  - rewrite Hkeys. clear - Hnd.
    induction Hnd as [|k l Hnotin Hnd IH]; simpl; constructor; auto.
    intros Hin. apply in_map_iff in Hin. destruct Hin as [k' [E Hin]].
    congruence.
  - intros issue Hin.
    assert (Hin' : In (key issue) (map Some (dict_keys d))).
    { rewrite <- Hkeys. apply in_map. exact Hin. }
    apply in_map_iff in Hin'. destruct Hin' as [k [E Hin']]. eauto.
  - constructor.
Qed.

Lemma process_issue_distinct (d : dict Issue) (seen : list Jira.Issue)
  (st : state) (t : Jira.Issue) :
  distinct_inv d seen st ->
  ~ In (Jira.key t) (map Jira.key seen) ->
  exists st', process_issue d st t = Ok st' /\ distinct_inv d (t :: seen) st'.
Proof.
  intros Hinv Hnew. pose proof (distinct_inv_keyed d seen st Hinv) as Hkeyed.
  destruct st as [u log]. destruct Hinv as [Ha [Hb [Hc [Hd He]]]].
  simpl in *. unfold process_issue.
  assert (Hlog : ~ In (Jira.key t) (map event_key log)).
  { intros Hin. apply in_map_iff in Hin. destruct Hin as [ev [E Hin]].
    apply Hnew. rewrite <- E. auto. }
  assert (Hb' : forall issue, In issue u ->
            exists k, key issue = Some k
                      /\ (In k (dict_keys d)
                          \/ (Jira.key t = k \/ In k (map Jira.key seen)))).
  { intros issue Hi. destruct (Hb issue Hi) as [k [Hk Hor]]. exists k. tauto. }
  destruct (dict_get d (Jira.key t)) as [e|] eqn:Hget.
  - pose proof (dict_get_some Issue d (Jira.key t) e Hget) as [Hin _].
    assert (He' : forall t', t = t' \/ In t' seen ->
              dict_get d (Jira.key t') = None ->
              In t' seen /\ Jira.key t' <> Jira.key t).
    { intros t' [E|Hs] Hnone; [subst t'; congruence|].
      split; auto. intros E. rewrite E, Hget in Hnone. discriminate. }
    destruct (is_issue_modified e t).
    + rewrite (drop_key_filter u (Jira.key t) Hkeyed). simpl.
      eexists. split; [reflexivity|].
      split; [|split; [|split; [|split]]]; simpl.
      * rewrite map_app. apply NoDup_snoc; [apply NoDup_map_filter, Ha|].
        intros Hx. apply in_map_iff in Hx. destruct Hx as [i [Hi Hx]].
        apply filter_In in Hx. destruct Hx as [_ Hx].
        unfold has_key in Hx. rewrite Hi in Hx. simpl in Hx.
        rewrite String.eqb_refl in Hx. discriminate.
      * intros issue Hi. apply in_app_or in Hi. destruct Hi as [Hi|[<-|[]]].
        -- apply filter_In in Hi. apply Hb', Hi.
        -- exists (Jira.key t). auto.
      * intros ev Hev. apply in_app_or in Hev.
        destruct Hev as [Hev|[<-|[]]]; auto.
      * rewrite map_app. apply NoDup_snoc; auto.
      * intros t' Ht' Hnone. destruct (He' t' Ht' Hnone) as [Hs Hne].
        destruct (He t' Hs Hnone) as [Hrec Hev].
        split; apply in_or_app; left; auto.
        apply filter_In. split; auto. rewrite extract_has_key.
        apply negb_true_iff, String.eqb_neq. auto.
    + eexists. split; [reflexivity|].
      split; [|split; [|split; [|split]]]; simpl; auto.
      intros t' Ht' Hnone. destruct (He' t' Ht' Hnone) as [Hs _]. auto.
  - apply dict_get_none in Hget.
    eexists. split; [reflexivity|].
    split; [|split; [|split; [|split]]]; simpl.
    + rewrite map_app. apply NoDup_snoc; auto.
      intros Hx. apply in_map_iff in Hx. destruct Hx as [i [Hi Hx]].
      destruct (Hb i Hx) as [k [Hk Hor]].
      assert (k = Jira.key t) by (simpl in Hi; congruence). subst k.
      destruct Hor; auto.
    + intros issue Hi. apply in_app_or in Hi. destruct Hi as [Hi|[<-|[]]].
      * apply Hb', Hi.
      * exists (Jira.key t). auto.
    + intros ev Hev. apply in_app_or in Hev.
      destruct Hev as [Hev|[<-|[]]]; auto.
    + rewrite map_app. apply NoDup_snoc; auto.
    + intros t' [E|Hs] Hnone.
      * subst t'. split; apply in_or_app; right; simpl; auto.
      * destruct (He t' Hs Hnone). split; apply in_or_app; left; auto.
Qed.

Lemma process_batch_distinct (d : dict Issue) (batch seen : list Jira.Issue)
  (st : state) :
  distinct_inv d seen st ->
  NoDup (map Jira.key batch) ->
  (forall t, In t batch -> ~ In (Jira.key t) (map Jira.key seen)) ->
  exists st', process_batch d st batch = Ok st'
              /\ distinct_inv d (rev batch ++ seen) st'.
Proof.
  revert seen st. induction batch as [|t rest IH]; intros seen st Hinv Hnd Hnew.
  - exists st. auto.
  - simpl in Hnd. inversion Hnd as [|? ? Hnotin Hnd']; subst.
    destruct (process_issue_distinct d seen st t Hinv (Hnew t (or_introl eq_refl)))
      as [st1 [H1 Hinv1]].
    destruct (IH (t :: seen) st1 Hinv1 Hnd') as [st2 [H2 Hinv2]].
    + intros t' Ht' [E|Hin]; [|apply (Hnew t' (or_intror Ht') Hin)].
      apply Hnotin. rewrite E. apply in_map. exact Ht'.
    + exists st2. simpl. rewrite H1. simpl. split; [exact H2|].
      rewrite <- app_assoc. exact Hinv2.
Qed.

(** With distinct fetched keys the merge keeps the keys of the collection
    distinct and announces every new ticket once. *)
Lemma merge_distinct_keys (d : dict Issue) (fetched : list Jira.Issue) :
  wf_dict d ->
  NoDup (map Jira.key fetched) ->
  exists updated_issues log,
    merge d fetched = Ok (updated_issues, log)
    /\ NoDup (map key updated_issues)
    /\ NoDup log
    /\ forall t, In t fetched ->
                 dict_get d (Jira.key t) = None ->
                 In (extract_issue_data t) updated_issues
                 /\ In (Added (Jira.key t)) log.
Proof.
  intros Hwf Hnd.
  destruct (process_batch_distinct d fetched [] (dict_values d, [])
              (distinct_inv_init d Hwf) Hnd) as [[u log] [Hrun Hinv]].
  - intros t _ [].
  - exists u, log. destruct Hinv as [Ha [_ [_ [Hd He]]]]. simpl in *.
    split; [exact Hrun|]. split; [exact Ha|].
    split; [apply NoDup_map_inv with (f := event_key); exact Hd|].
    intros t Ht. apply He. rewrite app_nil_r. apply in_rev in Ht. exact Ht.
Qed.

End DistinctKeys.

(** * Further properties of the code *)

(** ** The shape of a cleaned text *)

Section CleanShape.

Lemma crlf_to_lf_pair (c c' : ascii) (s : string) :
  crlf_to_lf (String c (String c' s))
  = if Ascii.eqb c ch_cr && Ascii.eqb c' ch_lf
    then String ch_lf (crlf_to_lf s)
    else String c (crlf_to_lf (String c' s)).
Proof. reflexivity. Qed.

Lemma crlf_to_lf_cons (a : ascii) (s : string) :
  exists b r, crlf_to_lf (String a s) = String b r.
Proof.
  destruct s as [|c' s]; [simpl; eauto|].
  rewrite crlf_to_lf_pair.
  destruct (Ascii.eqb a ch_cr && Ascii.eqb c' ch_lf); eauto.
Qed.

Lemma ends_with_space_cons (a b : ascii) (r : string) :
  ends_with_space (String a (String b r)) = ends_with_space (String b r).
Proof. reflexivity. Qed.

Lemma crlf_to_lf_start (s : string) :
  starts_with_space (crlf_to_lf s) = starts_with_space s.
Proof.
  destruct s as [|c [|c' s]]; auto.
  rewrite crlf_to_lf_pair.
  destruct (Ascii.eqb c ch_cr) eqn:Ec; auto.
  destruct (Ascii.eqb c' ch_lf); auto.
  apply Ascii.eqb_eq in Ec. subst c. reflexivity.
Qed.

Lemma crlf_to_lf_end (s : string) :
  ends_with_space (crlf_to_lf s) = ends_with_space s.
Proof.
  induction s as [|c|c c' s IHs IHc] using string_pair_ind; auto.
  rewrite crlf_to_lf_pair, ends_with_space_cons.
  destruct (Ascii.eqb c ch_cr && Ascii.eqb c' ch_lf) eqn:E.
  - apply andb_prop in E. destruct E as [_ E].
    apply Ascii.eqb_eq in E. subst c'.
    destruct s as [|a s]; [reflexivity|].
    destruct (crlf_to_lf_cons a s) as [b [r Hr]].
    rewrite Hr in *. rewrite ends_with_space_cons. exact IHs.
  - destruct (crlf_to_lf_cons c' s) as [b [r Hr]].
    rewrite Hr in *. rewrite ends_with_space_cons. exact IHc.
Qed.

Lemma crlf_to_lf_chars (a : ascii) (s : string) :
  contains_char a (crlf_to_lf s) = true -> contains_char a s = true.
Proof.
  induction s as [|c|c c' s IHs IHc] using string_pair_ind; auto.
  rewrite crlf_to_lf_pair.
  destruct (Ascii.eqb c ch_cr && Ascii.eqb c' ch_lf) eqn:E.
  - apply andb_prop in E. destruct E as [_ E].
    apply Ascii.eqb_eq in E. subst c'.
    simpl. intros H. apply orb_prop in H. destruct H as [H|H].
    + rewrite H. rewrite orb_true_r. reflexivity.
    + rewrite (IHs H). rewrite !orb_true_r. reflexivity.
  - intros H. change (Ascii.eqb c a || contains_char a (crlf_to_lf (String c' s)) = true) in H.
    change (Ascii.eqb c a || contains_char a (String c' s) = true).
    apply orb_prop in H. destruct H as [H|H].
    + rewrite H. reflexivity.
    + rewrite (IHc H). apply orb_true_r.
Qed.

Lemma crlf_to_lf_no_cr (s : string) :
  contains_char ch_cr s = false -> crlf_to_lf s = s.
Proof.
  induction s as [|c|c c' s IHs IHc] using string_pair_ind; auto.
  intros H. change (Ascii.eqb c ch_cr || contains_char ch_cr (String c' s) = false) in H.
  apply orb_false_elim in H. destruct H as [Hc H].
  rewrite crlf_to_lf_pair, Hc. cbn [andb]. rewrite (IHc H). reflexivity.
Qed.

Lemma tabs_to_spaces_start (s : string) :
  starts_with_space (tabs_to_spaces s) = starts_with_space s.
Proof.
  destruct s as [|c s]; auto. simpl.
  destruct (Ascii.eqb c ch_tab) eqn:E; auto.
  apply Ascii.eqb_eq in E. subst c. reflexivity.
Qed.

Lemma tabs_to_spaces_end (s : string) :
  ends_with_space (tabs_to_spaces s) = ends_with_space s.
Proof.
  induction s as [|c s IH]; auto.
  destruct s as [|c' s].
  - simpl. destruct (Ascii.eqb c ch_tab) eqn:E; auto.
    apply Ascii.eqb_eq in E. subst c. reflexivity.
  - exact IH.
Qed.

Lemma tabs_to_spaces_no_tab (s : string) :
  contains_char ch_tab (tabs_to_spaces s) = false.
Proof.
  induction s as [|c s IH]; auto. simpl. rewrite IH.
  destruct (Ascii.eqb c ch_tab) eqn:E; [reflexivity|].
  rewrite E. reflexivity.
Qed.

Lemma tabs_to_spaces_id (s : string) :
  contains_char ch_tab s = false -> tabs_to_spaces s = s.
Proof.
  induction s as [|c s IH]; auto. simpl. intros H.
  apply orb_false_elim in H. destruct H as [Hc H].
  rewrite Hc, (IH H). reflexivity.
Qed.

Lemma tabs_to_spaces_chars (a : ascii) (s : string) :
  a <> " "%char ->
  contains_char a (tabs_to_spaces s) = true -> contains_char a s = true.
Proof.
  intros Ha. induction s as [|c s IH]; auto. simpl. intros H.
  apply orb_prop in H. destruct H as [H|H].
  - destruct (Ascii.eqb c ch_tab).
    + apply Ascii.eqb_eq in H. congruence.
    + rewrite H. reflexivity.
  - rewrite (IH H). apply orb_true_r.
Qed.

Lemma lstrip_chars (a : ascii) (s : string) :
  contains_char a (lstrip s) = true -> contains_char a s = true.
Proof.
  induction s as [|c s IH]; auto. simpl.
  destruct (isspace c); auto. intros H. rewrite (IH H). apply orb_true_r.
Qed.

Lemma rstrip_chars (a : ascii) (s : string) :
  contains_char a (rstrip s) = true -> contains_char a s = true.
Proof.
  induction s as [|c s IH]; auto. simpl.
  destruct (rstrip s) as [|c' r].
  - destruct (isspace c); simpl; [discriminate|].
    intros H. apply orb_prop in H. destruct H as [H|H]; [|discriminate].
    rewrite H. reflexivity.
  - intros H. change (Ascii.eqb c a || contains_char a (String c' r) = true) in H.
    apply orb_prop in H. destruct H as [H|H].
    + rewrite H. reflexivity.
    + rewrite (IH H). apply orb_true_r.
Qed.

Lemma all_space_app (p q : string) :
  all_space (p ++ q) = all_space p && all_space q.
Proof.
  induction p as [|c p IH]; auto. simpl. rewrite IH. apply andb_assoc.
Qed.

Lemma strip_empty_blank (s : string) : strip s = "" -> all_space s = true.
Proof.
  intros H. destruct (strip_trimmed s) as [p [q [Hs [Hp [Hq _]]]]].
  rewrite H in Hs. simpl in Hs. rewrite Hs, all_space_app, Hp, Hq. reflexivity.
Qed.

End CleanShape.

Section CleanFixed.

Lemma cleaned_shape (text : option string) :
  starts_with_space (clean_text text) = false
  /\ ends_with_space (clean_text text) = false
  /\ contains_char ch_tab (clean_text text) = false.
Proof.
  destruct text as [[|c s]|]; try (repeat split; reflexivity).
  rewrite clean_text_nonempty.
  rewrite tabs_to_spaces_start, tabs_to_spaces_end, crlf_to_lf_start,
    crlf_to_lf_end.
  unfold strip. split; [apply rstrip_start, lstrip_start|].
  split; [apply rstrip_end|apply tabs_to_spaces_no_tab].
Qed.

Lemma cleaned_fixed_point (text : option string) :
  clean_text (Some (clean_text text)) = clean_text text
  <-> clean_text text <> "" /\ crlf_to_lf (clean_text text) = clean_text text.
Proof.
  destruct (cleaned_shape text) as [Hstart [Hend Htab]].
  destruct (clean_text text) as [|c t] eqn:Ht.
  - split; [discriminate|]. intros [H _]. congruence.
  - rewrite clean_text_nonempty. unfold strip.
    rewrite (lstrip_fixed _ Hstart), (rstrip_fixed _ Hend).
    rewrite tabs_to_spaces_id.
    + split; [intros H; split; [discriminate|exact H]|intros [_ H]; exact H].
    + destruct (contains_char ch_tab (crlf_to_lf (String c t))) eqn:E; auto.
      apply crlf_to_lf_chars in E. congruence.
Qed.

Lemma cleaned_without_cr (c : ascii) (s : string) :
  contains_char ch_cr (String c s) = false ->
  contains_char ch_cr (clean_text (Some (String c s))) = false.
Proof.
  intros Hcr. rewrite clean_text_nonempty.
  destruct (contains_char ch_cr
              (tabs_to_spaces (crlf_to_lf (strip (String c s))))) eqn:E; auto.
  apply tabs_to_spaces_chars in E; [|discriminate].
  apply crlf_to_lf_chars in E. unfold strip in E.
  apply rstrip_chars, lstrip_chars in E. congruence.
Qed.

Lemma cleaned_visible (c : ascii) (s : string) :
  all_space (String c s) = false -> clean_text (Some (String c s)) <> "".
Proof.
  intros Hvis H. rewrite clean_text_nonempty in H.
  assert (Hs : strip (String c s) = "").
  { destruct (strip (String c s)) as [|a r] eqn:E; auto.
    destruct (crlf_to_lf_cons a r) as [b [r' Hr]].
    rewrite Hr in H. discriminate. }
  apply strip_empty_blank in Hs. congruence.
Qed.

End CleanFixed.

(** X1.  Whatever the input, the text [clean_text] returns neither starts
    nor ends with whitespace and holds no TAB. *)
Theorem clean_text_shape (text : option string) :
  starts_with_space (clean_text text) = false
  /\ ends_with_space (clean_text text) = false
  /\ contains_char ch_tab (clean_text text) = false.
Proof.
  destruct text as [[|c s]|]; try (repeat split; reflexivity).
  rewrite clean_text_nonempty.
  rewrite tabs_to_spaces_start, tabs_to_spaces_end, crlf_to_lf_start,
    crlf_to_lf_end.
  unfold strip. split; [apply rstrip_start, lstrip_start|].
  split; [apply rstrip_end|apply tabs_to_spaces_no_tab].
Qed.

(** X2.  Cleaning a cleaned text gives it back exactly when it is not
    empty and holds no CR LF pair; otherwise the second cleaning changes
    it. *)
Theorem clean_text_fixed_point (text : option string) :
  clean_text (Some (clean_text text)) = clean_text text
  <-> clean_text text <> "" /\ crlf_to_lf (clean_text text) = clean_text text.
Proof.
  destruct (cleaned_shape text) as [Hstart [Hend Htab]].
  destruct (clean_text text) as [|c t] eqn:Ht.
  - split; [discriminate|]. intros [H _]. congruence.
  - rewrite clean_text_nonempty. unfold strip.
    rewrite (lstrip_fixed _ Hstart), (rstrip_fixed _ Hend).
    rewrite tabs_to_spaces_id.
    + split; [intros H; split; [discriminate|exact H]|intros [_ H]; exact H].
    + destruct (contains_char ch_tab (crlf_to_lf (String c t))) eqn:E; auto.
      apply crlf_to_lf_chars in E. congruence.
Qed.

(** X3.  A text with a visible character and without CR is cleaned to a
    text that a second cleaning leaves alone. *)
Theorem clean_text_stable_without_cr (s : string) :
  all_space s = false ->
  contains_char ch_cr s = false ->
  stable_text (Some s).
Proof.
  intros Hvis Hcr. unfold stable_text.
  apply (cleaned_fixed_point (Some s)).
  destruct s as [|c s]; [discriminate|].
  split; [apply cleaned_visible, Hvis|].
  apply crlf_to_lf_no_cr, cleaned_without_cr, Hcr.
Qed.

Lemma clean_text_stable_without_cr_witness : stable_text (Some "  Disk full  ").
Proof. apply clean_text_stable_without_cr; reflexivity. Defined.

(** ** What the comparison looks at *)

Section Compared.

Lemma safe_compare_stored_only (x : string) :
  safe_compare (Some x) None = true
  <-> x <> "No root cause provided" /\ x <> "Unresolved"
      /\ clean_text (Some x) <> "No content".
Proof.
  unfold safe_compare. cbn [is_none andb opt_eqb option_map orb].
  rewrite !andb_true_r.
  destruct (String.eqb_spec x "No root cause provided") as [E1|E1].
  - split; [discriminate|]. intros [H _]. congruence.
  - destruct (String.eqb_spec x "Unresolved") as [E2|E2].
    + split; [discriminate|]. intros [_ [H _]]. congruence.
    + rewrite orb_false_r.
      destruct (String.eqb_spec (clean_text (Some x)) "No content") as [E3|E3].
      * split; [discriminate|]. intros [_ [_ H]]. congruence.
      * split; auto.
Qed.

Lemma safe_compare_fetched_only (v : value) :
  safe_compare None (Some v) = true
  <-> clean_text (Some (str v)) <> "No content".
Proof.
  unfold safe_compare. cbn [is_none andb opt_eqb option_map orb].
  destruct (String.eqb_spec (clean_text (Some (str v))) "No content") as [E|E].
  - split; [discriminate|]. congruence.
  - split; auto.
Qed.

Lemma safe_compare_both (x : string) (v : value) :
  safe_compare (Some x) (Some v) = true
  <-> clean_text (Some x) <> clean_text (Some (str v)).
Proof.
  rewrite safe_compare_some_some, negb_true_iff. apply String.eqb_neq.
Qed.

Lemma safe_compare_resource (x : option string) (r r' : option Jira.Resource) :
  option_map Jira.to_str r = option_map Jira.to_str r' ->
  safe_compare x (option_map PyResource r)
  = safe_compare x (option_map PyResource r').
Proof.
  destruct r as [r|], r' as [r'|]; simpl; try discriminate; auto.
  intros H. injection H as H. unfold safe_compare.
  cbn [is_none option_map str]. rewrite H. reflexivity.
Qed.

Lemma filter_placeholders_read (cs cs' : list Comment) :
  map (fun c => (body c, message c)) cs
  = map (fun c => (body c, message c)) cs' ->
  map get_body (filter_placeholders cs) = map get_body (filter_placeholders cs').
Proof.
  revert cs'. unfold filter_placeholders.
  induction cs as [|c cs IH]; intros [|c' cs'] H; try discriminate; auto.
  simpl in H. injection H as Hb Hm Hcs. simpl. rewrite Hm.
  destruct (negb (opt_eqb (message c') (Some placeholder))); simpl; auto.
  unfold get_body at 1 3. rewrite Hb, (IH cs' Hcs). reflexivity.
Qed.

Lemma content_modified_bodies (fs : list Comment) (ns : list Jira.Comment) :
  content_modified fs ns
  = existsb (fun p : option string * option string =>
               negb (String.eqb (clean_text (fst p)) (clean_text (snd p))))
            (combine (map get_body fs) (map Jira.body ns)).
Proof.
  unfold content_modified. revert ns.
  induction fs as [|f fs IH]; intros [|n ns]; simpl; auto.
  rewrite IH. reflexivity.
Qed.

Lemma comments_modified_read (cs cs' : list Comment) (ns ns' : list Jira.Comment) :
  map (fun c => (body c, message c)) cs
  = map (fun c => (body c, message c)) cs' ->
  map Jira.body ns = map Jira.body ns' ->
  comments_modified cs ns = comments_modified cs' ns'.
Proof.
  intros Hc Hn. apply filter_placeholders_read in Hc.
  unfold comments_modified.
  assert (Hlc : List.length (filter_placeholders cs)
                = List.length (filter_placeholders cs')).
  { rewrite <- (length_map get_body), Hc, length_map. reflexivity. }
  assert (Hln : List.length ns = List.length ns').
  { rewrite <- (length_map Jira.body), Hn, length_map. reflexivity. }
  rewrite Hlc, Hln, !content_modified_bodies, Hc, Hn.
  destruct ns, ns'; try discriminate; reflexivity.
Qed.

Lemma safe_compare_cleaned_iff (text : option string) :
  safe_compare (Some (clean_text text)) (option_map PyStr text) = false
  <-> stable_text text.
Proof.
  destruct text as [s|]; [|split; [intros _; exact I|reflexivity]].
  cbn [option_map]. rewrite safe_compare_some_some. cbn [str].
  unfold stable_text. rewrite negb_false_iff. apply String.eqb_eq.
Qed.

Lemma safe_compare_custom_field_iff (t : Jira.Issue) :
  safe_compare (get_custom_field_value t "customfield_12602")
    (option_map PyStr (Jira.customfield_12602 (Jira.fields t))) = false
  <-> stable_text (Jira.customfield_12602 (Jira.fields t)).
Proof.
  unfold get_custom_field_value.
  change (getattr_fields (Jira.fields t) "customfield_12602")
    with (Jira.customfield_12602 (Jira.fields t)).
  destruct (Jira.customfield_12602 (Jira.fields t)) as [[|c s]|].
  - split; reflexivity.
  - cbn [truthy]. apply (safe_compare_cleaned_iff (Some (String c s))).
  - split; [intros _; exact I|reflexivity].
Qed.

Lemma safe_compare_resolution_iff (r : option Jira.Resource) :
  safe_compare (option_map Jira.name r) (option_map PyResource r) = false
  <-> match r with
      | Some r => clean_text (Some (Jira.name r)) = clean_text (Some (Jira.to_str r))
      | None => True
      end.
Proof.
  destruct r as [r|]; [|split; [intros _; exact I|reflexivity]].
  cbn [option_map]. rewrite safe_compare_some_some. cbn [str].
  rewrite negb_false_iff. apply String.eqb_eq.
Qed.

Lemma stored_form_content_iff (ns : list Jira.Comment) :
  content_modified (stored_form ns) ns = false
  <-> Forall (fun comment => stable_text (Jira.body comment)) ns.
Proof.
  split; [|apply stored_form_content].
  unfold content_modified, stored_form.
  induction ns as [|n ns IH]; simpl; [constructor|].
  intros H. apply orb_false_elim in H. destruct H as [Hn Hns].
  constructor; [|apply IH, Hns].
  apply negb_false_iff, String.eqb_eq in Hn.
  unfold get_body in Hn. simpl body in Hn.
  destruct (Jira.body n) as [s|]; [exact Hn|exact I].
Qed.

Lemma stored_form_comments_iff (ns : list Jira.Comment) :
  comments_modified (stored_form ns) ns = false
  <-> Forall (fun comment => stable_text (Jira.body comment)) ns.
Proof.
  rewrite <- stored_form_content_iff.
  unfold comments_modified. rewrite stored_form_kept.
  unfold stored_form at 1. rewrite length_map, Nat.eqb_refl.
  cbn [negb andb].
  destruct ns; [split; reflexivity|reflexivity].
Qed.

End Compared.

(** X4.  The whole decision table of [safe_compare].  Two absent values are
    equal.  A stored value against an absent fetched one is a change unless
    it is ["No root cause provided"], ["Unresolved"], or cleans to
    ["No content"].  An absent stored value against a fetched one is a
    change unless the fetched one cleans to ["No content"].  Two present
    values are a change exactly when their cleaned texts differ. *)
Theorem safe_compare_table (x : string) (v : value) :
  safe_compare None None = false
  /\ (safe_compare (Some x) None = true
      <-> x <> "No root cause provided" /\ x <> "Unresolved"
          /\ clean_text (Some x) <> "No content")
  /\ (safe_compare None (Some v) = true
      <-> clean_text (Some (str v)) <> "No content")
  /\ (safe_compare (Some x) (Some v) = true
      <-> clean_text (Some x) <> clean_text (Some (str v))).
Proof.
  split; [reflexivity|]. split; [apply safe_compare_stored_only|].
  split; [apply safe_compare_fetched_only|apply safe_compare_both].
Qed.

(** X5.  [is_issue_modified] reads four fields and the comment bodies, and
    nothing else: of the stored record the summary, description, resolution,
    root cause and each comment's body and message; of the fetched ticket
    the summary, description, custom field, the text [str()] gives for the
    resolution, and each comment's body.  A change of key, reporter,
    creation date, comment authors or of the resolution's [name] alone is
    never detected. *)
Theorem is_issue_modified_reads (e e' : Issue) (n n' : Jira.Issue) :
  summary e = summary e' ->
  description e = description e' ->
  resolution e = resolution e' ->
  root_cause e = root_cause e' ->
  map (fun c => (body c, message c)) (comments e)
  = map (fun c => (body c, message c)) (comments e') ->
  Jira.summary (Jira.fields n) = Jira.summary (Jira.fields n') ->
  Jira.description (Jira.fields n) = Jira.description (Jira.fields n') ->
  option_map Jira.to_str (Jira.resolution (Jira.fields n))
  = option_map Jira.to_str (Jira.resolution (Jira.fields n')) ->
  Jira.customfield_12602 (Jira.fields n)
  = Jira.customfield_12602 (Jira.fields n') ->
  map Jira.body (Jira.comment (Jira.fields n))
  = map Jira.body (Jira.comment (Jira.fields n')) ->
  is_issue_modified e n = is_issue_modified e' n'.
Proof.
  intros Hs Hd Hr Hc Hm Hs' Hd' Hr' Hc' Hm'.
  rewrite !is_issue_modified_fields.
  rewrite Hs, Hd, Hr, Hc, Hs', Hd', Hc'.
  rewrite (safe_compare_resource (resolution e') _ _ Hr').
  rewrite (comments_modified_read _ _ _ _ Hm Hm').
  reflexivity.
Qed.

Lemma is_issue_modified_reads_witness :
  is_issue_modified
    (sample_stored (Some "Fixed") None [stored_comment (Some "seen") None])
    {| Jira.key := "OPS-1";
       Jira.fields :=
         {| Jira.summary := Some "Disk full";
            Jira.description := Some "The disk is full";
            Jira.reporter := Some "Ann";
            Jira.resolution :=
              Some {| Jira.name := "Fixed"; Jira.to_str := "Fixed" |};
            Jira.customfield_12602 := None;
            Jira.created := Some "2024-01-01";
            Jira.comment := [fetched_comment "seen"] |} |}
  = is_issue_modified
      {| key := Some "OPS-9"; summary := Some "Disk full";
         reporter := Some "Zed"; description := Some "The disk is full";
         resolution := Some "Fixed"; root_cause := None;
         created_at := None;
         comments := [{| author := None; body := Some "seen";
                         message := None |}] |}
      {| Jira.key := "OPS-2";
         Jira.fields :=
           {| Jira.summary := Some "Disk full";
              Jira.description := Some "The disk is full";
              Jira.reporter := Some "Carl";
              Jira.resolution :=
                Some {| Jira.name := "Done"; Jira.to_str := "Fixed" |};
              Jira.customfield_12602 := None;
              Jira.created := Some "2025-05-05";
              Jira.comment :=
                [{| Jira.author := "Eve"; Jira.body := Some "seen" |}] |} |}.
Proof. apply is_issue_modified_reads; reflexivity. Defined.

(** X6.  A ticket compared with its own extracted record counts as
    unmodified exactly when it is stable: its summary, description, root
    cause and comment bodies clean to texts a second cleaning leaves alone,
    and its resolution is rendered by [str()] as its name up to cleaning. *)
Theorem extracted_unmodified_iff (t : Jira.Issue) :
  is_issue_modified (extract_issue_data t) t = false <-> stable_ticket t.
Proof.
  rewrite is_issue_modified_fields.
  cbn [extract_issue_data summary description resolution root_cause comments].
  rewrite !orb_false_iff.
  rewrite !safe_compare_cleaned_iff, safe_compare_resolution_iff,
    safe_compare_custom_field_iff.
  fold (stored_form (Jira.comment (Jira.fields t))).
  rewrite stored_form_comments_iff.
  unfold stable_ticket. cbv zeta. tauto.
Qed.

(** ** Loading, once more *)

Section LoadLookup.

Lemma dict_get_set (V : Type) (d : dict V) (k k' : string) (v : V) :
  dict_get (dict_set d k v) k'
  = if String.eqb k k' then Some v else dict_get d k'.
Proof.
  induction d as [|[k0 v0] d IH]; simpl; auto.
  destruct (String.eqb_spec k0 k) as [E|E]; simpl.
  - subst k0. destruct (String.eqb k k'); reflexivity.
  - rewrite IH. destruct (String.eqb_spec k0 k') as [E'|E']; auto.
    destruct (String.eqb_spec k k') as [E2|E2]; auto. congruence.
Qed.

Lemma dict_set_new (V : Type) (d : dict V) (k : string) (v : V) :
  ~ In k (dict_keys d) -> dict_set d k v = (d ++ [(k, v)])%list.
Proof.
  induction d as [|[k0 v0] d IH]; simpl; auto.
  intros H. destruct (String.eqb_spec k0 k) as [E|E]; [exfalso; auto|].
  rewrite IH; auto.
Qed.

Lemma find_snoc (A : Type) (f : A -> bool) (l : list A) (x : A) :
  find f (l ++ [x])
  = match find f l with
    | Some y => Some y
    | None => if f x then Some x else None
    end.
Proof.
  induction l as [|a l IH]; simpl; auto. destruct (f a); auto.
Qed.

Lemma index_by_key_get (existing_data : list Issue) (acc d : dict Issue)
  (k : string) :
  index_by_key existing_data acc = Ok d ->
  dict_get d k
  = match find (has_key k) (rev existing_data) with
    | Some issue => Some issue
    | None => dict_get acc k
    end.
Proof.
  revert acc. induction existing_data as [|issue rest IH]; simpl; intros acc H.
  - injection H as <-. reflexivity.
  - unfold item_key in H. destruct (key issue) as [ki|] eqn:Hk; [|discriminate].
    assert (Hh : has_key k issue = String.eqb ki k)
      by (unfold has_key; rewrite Hk; reflexivity).
    simpl in H. rewrite (IH _ H), find_snoc, dict_get_set, Hh.
    destruct (find (has_key k) (rev rest)); [reflexivity|].
    destruct (String.eqb ki k); reflexivity.
Qed.

Lemma index_by_key_distinct (existing_data : list Issue) (acc : dict Issue) :
  Forall keyed existing_data ->
  NoDup (map key existing_data) ->
  (forall k, In (Some k) (map key existing_data) -> ~ In k (dict_keys acc)) ->
  exists d,
    index_by_key existing_data acc = Ok d
    /\ dict_values d = (dict_values acc ++ existing_data)%list
    /\ map Some (dict_keys d)
       = (map Some (dict_keys acc) ++ map key existing_data)%list.
Proof.
  revert acc. induction existing_data as [|issue rest IH]; intros acc Hk Hnd Hacc.
  - exists acc. simpl. rewrite !app_nil_r. auto.
  - inversion Hk as [|? ? Hi Hrest]; subst.
    simpl in Hnd. inversion Hnd as [|? ? Hnotin Hnd']; subst.
    unfold keyed in Hi. destruct (key issue) as [k|] eqn:Ek; [|congruence].
    simpl. unfold item_key. rewrite Ek. simpl.
    rewrite dict_set_new; [|apply Hacc; simpl; left; exact Ek].
    destruct (IH (acc ++ [(k, issue)])%list Hrest Hnd') as [d [Hd [Hv Hkeys]]].
    + intros k' Hin Hin'. unfold dict_keys in Hin'. rewrite map_app in Hin'.
      apply in_app_or in Hin'. destruct Hin' as [Hin'|[E|[]]].
      * apply (Hacc k'); [simpl; auto|exact Hin'].
      * simpl in E. subst k'. auto.
    + exists d. split; [exact Hd|]. unfold dict_values, dict_keys in *.
      rewrite Hv, Hkeys, !map_app, <- !app_assoc. simpl. auto.
Qed.

End LoadLookup.

(** X7.  [load_existing_data] keeps, for every key, the last record of the
    file that carries it: looking a key up in the loaded collection gives
    that record, and nothing when no record carries the key. *)
Theorem load_last_wins (existing_data : list Issue) (d : dict Issue) (k : string) :
  load_existing_data (Some existing_data) = Ok d ->
  dict_get d k = find (has_key k) (rev existing_data).
Proof.
  intros H. simpl in H. rewrite (index_by_key_get existing_data [] d k H).
  destruct (find (has_key k) (rev existing_data)); reflexivity.
Qed.

Lemma load_last_wins_witness :
  dict_get
    [("OPS-1", sample_stored (Some "Fixed") None [])]
    "OPS-1"
  = find (has_key "OPS-1")
      (rev [sample_stored None None []; sample_stored (Some "Fixed") None []]).
Proof.
  apply (load_last_wins
           [sample_stored None None []; sample_stored (Some "Fixed") None []]).
  reflexivity.
Defined.

(** X8.  When every record of the file has a key and no key occurs twice,
    loading keeps the records as they are and in their order: the values of
    the loaded collection are the file. *)
Theorem load_distinct_round_trip (existing_data : list Issue) :
  Forall keyed existing_data ->
  NoDup (map key existing_data) ->
  exists d,
    load_existing_data (Some existing_data) = Ok d
    /\ dict_values d = existing_data
    /\ map Some (dict_keys d) = map key existing_data.
Proof.
  intros Hk Hnd.
  destruct (index_by_key_distinct existing_data [] Hk Hnd) as [d [Hd [Hv Hkeys]]].
  - intros k _ [].
  - exists d. auto.
Qed.

Lemma load_distinct_round_trip_witness :
  exists d,
    load_existing_data
      (Some [extract_issue_data ticket_blank; extract_issue_data ticket_plain])
    = Ok d
    /\ dict_values d
       = [extract_issue_data ticket_blank; extract_issue_data ticket_plain].
Proof.
  destruct (load_distinct_round_trip
              [extract_issue_data ticket_blank; extract_issue_data ticket_plain])
    as [d [Hd [Hv _]]].
  - repeat constructor; discriminate.
  - repeat constructor; simpl; intuition discriminate.
  - exists d. auto.
Defined.

(** ** The merge as a fold *)

Section Trace.

Lemma process_batch_app (d : dict Issue) (b1 b2 : list Jira.Issue) (st : state) :
  process_batch d st (b1 ++ b2)
  = bind (process_batch d st b1) (fun st' => process_batch d st' b2).
Proof.
  revert st. induction b1 as [|t b1 IH]; intros st; simpl; auto.
  destruct (process_issue d st t); simpl; auto.
Qed.

Lemma process_issue_exact (d : dict Issue) (u : list Issue)
  (log : list ChangeEvent) (t : Jira.Issue) :
  Forall keyed u ->
  process_issue d (u, log) t
  = Ok (apply_ticket d u t, (log ++ event_of d t)%list).
Proof.
  intros Hk. unfold process_issue, apply_ticket, event_of.
  destruct (dict_get d (Jira.key t)) as [e|]; [|reflexivity].
  destruct (is_issue_modified e t); [|rewrite app_nil_r; reflexivity].
  rewrite (drop_key_filter u (Jira.key t) Hk). reflexivity.
Qed.

Lemma apply_ticket_inv (d : dict Issue) (u : list Issue) (t : Jira.Issue) :
  merge_inv d (u, []) -> merge_inv d (apply_ticket d u t, []).
Proof.
  intros Hinv.
  destruct (process_issue_inv d (u, []) t Hinv) as [st' [Hrun [Hinv' _]]].
  rewrite (process_issue_exact d u [] t (proj1 Hinv)) in Hrun.
  injection Hrun as <-. exact Hinv'.
Qed.

Lemma merge_fold (d : dict Issue) (fetched : list Jira.Issue) (u : list Issue)
  (log : list ChangeEvent) :
  merge_inv d (u, []) ->
  process_batch d (u, log) fetched
  = Ok (fold_left (apply_ticket d) fetched u,
        (log ++ flat_map (event_of d) fetched)%list).
Proof.
  revert u log. induction fetched as [|t rest IH]; intros u log Hinv.
  - simpl. rewrite app_nil_r. reflexivity.
  - change (process_batch d (u, log) (t :: rest))
      with (bind (process_issue d (u, log) t)
                 (fun st' => process_batch d st' rest)).
    rewrite (process_issue_exact d u log t (proj1 Hinv)). cbn [bind].
    rewrite (IH _ _ (apply_ticket_inv d u t Hinv)). cbn [flat_map fold_left].
    rewrite <- app_assoc. reflexivity.
Qed.

Lemma wf_dict_key (d : dict Issue) (k : string) (e : Issue) :
  wf_dict d -> dict_get d k = Some e -> key e = Some k.
Proof.
  intros [_ Hk]. induction Hk as [|[k' v'] d H Hk IH]; simpl; [discriminate|].
  destruct (String.eqb_spec k' k) as [E|E]; auto.
  intros Hget. injection Hget as <-. simpl in H. congruence.
Qed.

Lemma final_record_snoc (e : Issue) (k : string) (fetched : list Jira.Issue)
  (t : Jira.Issue) :
  final_record e k (fetched ++ [t])
  = if String.eqb (Jira.key t) k && is_issue_modified e t
    then extract_issue_data t
    else final_record e k fetched.
Proof.
  unfold final_record, last_modified. rewrite rev_unit. simpl.
  destruct (String.eqb (Jira.key t) k && is_issue_modified e t); reflexivity.
Qed.

Lemma final_record_key (d : dict Issue) (e : Issue) (k : string)
  (fetched : list Jira.Issue) :
  wf_dict d -> dict_get d k = Some e -> key (final_record e k fetched) = Some k.
Proof.
  intros Hwf Hget. unfold final_record, last_modified.
  destruct (find _ (rev fetched)) as [t|] eqn:Hf.
  - apply find_some in Hf. destruct Hf as [_ Hf].
    apply andb_prop in Hf. destruct Hf as [Hf _].
    apply String.eqb_eq in Hf. simpl. congruence.
  - apply (wf_dict_key d k e Hwf Hget).
Qed.

Lemma new_tickets_snoc (d : dict Issue) (fetched : list Jira.Issue) (t : Jira.Issue) :
  new_tickets d (fetched ++ [t])
  = (new_tickets d fetched
     ++ (if dict_mem d (Jira.key t) then [] else [t]))%list.
Proof.
  unfold new_tickets. rewrite filter_app. simpl.
  destruct (dict_mem d (Jira.key t)); reflexivity.
Qed.


Lemma apply_ticket_in (d : dict Issue) (u : list Issue) (t : Jira.Issue)
  (r : Issue) :
  In r (apply_ticket d u t) -> In r u \/ r = extract_issue_data t.
Proof.
  unfold apply_ticket. destruct (dict_get d (Jira.key t)) as [e|].
  - destruct (is_issue_modified e t); auto.
    intros H. apply in_app_or in H. destruct H as [H|[<-|[]]]; auto.
    apply filter_In in H. tauto.
  - intros H. apply in_app_or in H. destruct H as [H|[<-|[]]]; auto.
Qed.

Lemma apply_ticket_keeps (d : dict Issue) (u : list Issue) (t : Jira.Issue)
  (r : Issue) (k : string) :
  In r u -> key r = Some k -> k <> Jira.key t \/ dict_get d k = None ->
  In r (apply_ticket d u t).
Proof.
  intros Hr Hk Hor. unfold apply_ticket.
  destruct (dict_get d (Jira.key t)) as [e|] eqn:Hget; [|apply in_or_app; auto].
  destruct (is_issue_modified e t); auto.
  apply in_or_app. left. apply filter_In. split; auto.
  unfold has_key. rewrite Hk. simpl. apply negb_true_iff, String.eqb_neq.
  intros E. subst k. destruct Hor as [H|H]; congruence.
Qed.

Lemma apply_ticket_length (d : dict Issue) (u : list Issue) (t : Jira.Issue) :
  merge_inv d (u, []) ->
  List.length (apply_ticket d u t)
  = List.length u + (if dict_mem d (Jira.key t) then 0 else 1).
Proof.
  intros [_ Hcount]. simpl in Hcount. unfold apply_ticket, dict_mem.
  destruct (dict_get d (Jira.key t)) as [e|] eqn:Hget.
  - destruct (is_issue_modified e t); [|lia].
    apply dict_get_some in Hget. destruct Hget as [Hin _].
    pose proof (Hcount _ Hin) as H1. unfold count_key in H1.
    pose proof (filter_split_length Issue (has_key (Jira.key t)) u) as H2.
    rewrite length_app. simpl. lia.
  - rewrite length_app. reflexivity.
Qed.

(** Everything the loop keeps true, in one statement about the fold. *)
Lemma fold_trace (d : dict Issue) (fetched : list Jira.Issue) :
  wf_dict d ->
  merge_inv d (fold_left (apply_ticket d) fetched (dict_values d), [])
  /\ (forall k e, dict_get d k = Some e ->
        In (final_record e k fetched)
           (fold_left (apply_ticket d) fetched (dict_values d)))
  /\ (forall t, In t fetched -> dict_get d (Jira.key t) = None ->
        In (extract_issue_data t)
           (fold_left (apply_ticket d) fetched (dict_values d)))
  /\ (forall r, In r (fold_left (apply_ticket d) fetched (dict_values d)) ->
        exists k, key r = Some k
                  /\ (In k (dict_keys d) \/ In k (map Jira.key fetched)))
  /\ List.length (fold_left (apply_ticket d) fetched (dict_values d))
     = List.length d + List.length (new_tickets d fetched).
Proof.
  intros Hwf. induction fetched as [|t rest IH] using rev_ind.
  - simpl. split; [apply merge_inv_init, Hwf|].
    split; [intros k e Hget; apply (dict_get_some Issue d k e Hget)|].
    split; [intros t []|]. split.
    + intros r Hr. pose proof (wf_values_keys d Hwf) as Hkeys.
      assert (Hin : In (key r) (map Some (dict_keys d)))
        by (rewrite <- Hkeys; apply in_map; exact Hr).
      apply in_map_iff in Hin. destruct Hin as [k [E Hin]]. eauto.
    + unfold dict_values. rewrite length_map. lia.
  - destruct IH as [Hinv [Hfin [Hnew [Hkeys Hlen]]]].
    rewrite fold_left_app. simpl.
    set (u := fold_left (apply_ticket d) rest (dict_values d)) in *.
    split; [apply apply_ticket_inv, Hinv|].
    split; [|split; [|split]].
    + intros k e Hget. rewrite final_record_snoc.
      destruct (String.eqb_spec (Jira.key t) k) as [E|E]; simpl.
      * subst k. unfold apply_ticket. rewrite Hget.
        destruct (is_issue_modified e t); [apply in_or_app; simpl; auto|].
        apply Hfin, Hget.
      * apply (apply_ticket_keeps d u t (final_record e k rest) k);
          [apply Hfin, Hget|apply (final_record_key d e k rest Hwf Hget)|].
        left. congruence.
    + intros t' Hin Hnone. apply in_app_or in Hin.
      destruct Hin as [Hin|[<-|[]]].
      * apply (apply_ticket_keeps d u t (extract_issue_data t') (Jira.key t'));
          [apply Hnew; assumption|reflexivity|right; exact Hnone].
      * unfold apply_ticket. rewrite Hnone. apply in_or_app. simpl. auto.
    + intros r Hr. rewrite map_app. apply apply_ticket_in in Hr.
      destruct Hr as [Hr | ->].
      * destruct (Hkeys r Hr) as [k [Hk Hor]]. exists k. split; auto.
        destruct Hor; auto. right. apply in_or_app. auto.
      * exists (Jira.key t). split; auto. right. apply in_or_app. simpl. auto.
    + rewrite (apply_ticket_length d u t Hinv), Hlen, new_tickets_snoc, length_app.
      destruct (dict_mem d (Jira.key t)); simpl; lia.
Qed.

End Trace.

Section SyncClosed.

Lemma sync_closed_form (output_file : option (list Issue)) (d : dict Issue)
  (batches : list (list Jira.Issue)) :
  load_existing_data output_file = Ok d ->
  sync_jira_issues output_file batches
  = Ok (fold_left (apply_ticket d) (List.concat batches) (dict_values d),
        flat_map (event_of d) (List.concat batches)).
Proof.
  intros Hload. rewrite sync_is_merge, Hload. cbn [bind]. unfold merge.
  apply (merge_fold d (List.concat batches) (dict_values d) []).
  apply merge_inv_init, (load_existing_data_wf output_file d Hload).
Qed.

Lemma dict_get_in_keys (V : Type) (d : dict V) (k : string) :
  In k (dict_keys d) -> exists v, dict_get d k = Some v.
Proof.
  intros H. destruct (dict_get d k) as [v|] eqn:E; eauto.
  apply dict_get_none in E. contradiction.
Qed.

Lemma dict_mem_get (V : Type) (d : dict V) (k : string) :
  dict_mem d k = false <-> dict_get d k = None.
Proof.
  unfold dict_mem. destruct (dict_get d k); split; congruence.
Qed.

Lemma written_keys (d : dict Issue) (fetched : list Jira.Issue) (k : string) :
  wf_dict d ->
  In (Some k) (map key (fold_left (apply_ticket d) fetched (dict_values d)))
  <-> In k (dict_keys d) \/ In k (map Jira.key fetched).
Proof.
  intros Hwf.
  destruct (fold_trace d fetched Hwf) as [_ [Hfin [Hnew [Hkeys _]]]].
  assert (Hstored : forall e, dict_get d k = Some e ->
            In (Some k)
               (map key (fold_left (apply_ticket d) fetched (dict_values d)))).
  { intros e Hget. rewrite <- (final_record_key d e k fetched Hwf Hget).
    apply in_map, Hfin, Hget. }
  split.
  - intros Hin. apply in_map_iff in Hin. destruct Hin as [r [Hk Hr]].
    destruct (Hkeys r Hr) as [k' [Hk' Hor]].
    assert (k' = k) by congruence. subst k'. exact Hor.
  - intros [Hin|Hin].
    + destruct (dict_get_in_keys Issue d k Hin) as [e Hget]. eauto.
    + apply in_map_iff in Hin. destruct Hin as [t [Hk Ht]]. subst k.
      destruct (dict_get d (Jira.key t)) as [e|] eqn:Hget; [eauto|].
      change (Some (Jira.key t)) with (key (extract_issue_data t)).
      apply in_map, Hnew; auto.
Qed.

Lemma loaded_keys (existing_data : list Issue) (d : dict Issue) (k : string) :
  index_by_key existing_data [] = Ok d ->
  In k (dict_keys d) <-> In (Some k) (map key existing_data).
Proof.
  intros Hd. pose proof (index_by_key_get existing_data [] d k Hd) as Hget.
  simpl in Hget. split.
  - intros Hin. destruct (dict_get_in_keys Issue d k Hin) as [e He].
    rewrite He in Hget.
    destruct (find (has_key k) (rev existing_data)) as [r|] eqn:Hf;
      [|discriminate].
    apply find_some in Hf. destruct Hf as [Hr Hk]. apply in_rev in Hr.
    unfold has_key in Hk. destruct (key r) as [k'|] eqn:Ek; [|discriminate].
    simpl in Hk. apply String.eqb_eq in Hk. subst k'.
    rewrite <- Ek. apply in_map, Hr.
  - intros Hin. apply in_map_iff in Hin. destruct Hin as [r [Hk Hr]].
    destruct (dict_get d k) as [e|] eqn:He.
    + apply (dict_get_some Issue d k e He).
    + destruct (find (has_key k) (rev existing_data)) as [r'|] eqn:Hf;
        [discriminate|].
      pose proof (find_none _ _ Hf r (proj1 (in_rev existing_data r) Hr)) as Hno.
      unfold has_key in Hno. rewrite Hk in Hno. simpl in Hno.
      rewrite String.eqb_refl in Hno. discriminate.
Qed.

End SyncClosed.

(** X9.  The change log of a run, its "Added new issue" and "Updated
    issue" lines, is fixed ticket by ticket: a fetched ticket whose key is
    not in the loaded collection gives one [Added], one that counts as
    modified against the loaded record gives one [Updated], any other
    gives none, whatever was fetched before it.  So the change log has at
    most one entry per fetched ticket. *)
Theorem sync_log (output_file : option (list Issue)) (d : dict Issue)
  (batches : list (list Jira.Issue)) (updated_issues : list Issue)
  (log : list ChangeEvent) :
  load_existing_data output_file = Ok d ->
  sync_jira_issues output_file batches = Ok (updated_issues, log) ->
  log = flat_map (event_of d) (List.concat batches)
  /\ List.length log <= List.length (List.concat batches).
Proof.
  intros Hload Hrun. rewrite (sync_closed_form output_file d batches Hload) in Hrun.
  injection Hrun as _ <-. split; [reflexivity|].
  induction (List.concat batches) as [|t rest IH]; simpl; auto.
  rewrite length_app. unfold event_of at 1.
  destruct (dict_get d (Jira.key t)) as [e|];
    [destruct (is_issue_modified e t)|]; simpl; lia.
Qed.

Lemma sync_log_witness :
  [Updated "OPS-1"] = flat_map
    (event_of [("OPS-1", extract_issue_data ticket_blank);
               ("OPS-2", extract_issue_data ticket_plain)])
    (List.concat [[ticket_blank; ticket_plain]]).
Proof.
  apply (sync_log
           (Some [extract_issue_data ticket_blank; extract_issue_data ticket_plain])
           [("OPS-1", extract_issue_data ticket_blank);
            ("OPS-2", extract_issue_data ticket_plain)]
           [[ticket_blank; ticket_plain]]
           [extract_issue_data ticket_plain; extract_issue_data ticket_blank]);
    reflexivity.
Defined.

(** X10.  The list a run writes has one record per loaded key plus one per
    fetched ticket with a new key, counted with repetition; the record of
    every such ticket is in the list. *)
Theorem sync_length (output_file : option (list Issue)) (d : dict Issue)
  (batches : list (list Jira.Issue)) (updated_issues : list Issue)
  (log : list ChangeEvent) :
  load_existing_data output_file = Ok d ->
  sync_jira_issues output_file batches = Ok (updated_issues, log) ->
  List.length updated_issues
  = List.length d + List.length (new_tickets d (List.concat batches))
  /\ forall t, In t (new_tickets d (List.concat batches)) ->
               In (extract_issue_data t) updated_issues.
Proof.
  intros Hload Hrun. rewrite (sync_closed_form output_file d batches Hload) in Hrun.
  injection Hrun as <- _.
  destruct (fold_trace d (List.concat batches)
              (load_existing_data_wf output_file d Hload))
    as [_ [_ [Hnew [_ Hlen]]]].
  split; [exact Hlen|].
  intros t Ht. unfold new_tickets in Ht. apply filter_In in Ht.
  destruct Ht as [Hin Hmem]. apply Hnew; auto.
  apply dict_mem_get, negb_true_iff, Hmem.
Qed.

Lemma sync_length_witness :
  List.length [extract_issue_data ticket_plain; extract_issue_data ticket_plain]
  = List.length ([] : dict Issue)
    + List.length (new_tickets [] (List.concat [[ticket_plain]; [ticket_plain]])).
Proof.
  apply (sync_length None [] [[ticket_plain]; [ticket_plain]]
           [extract_issue_data ticket_plain; extract_issue_data ticket_plain]
           [Added "OPS-2"; Added "OPS-2"]); reflexivity.
Defined.



(** X12.  The keys of the written list are the loaded keys and the fetched
    keys, no more and no fewer: a run never loses a key and never invents
    one. *)
Theorem sync_keys (output_file : option (list Issue)) (d : dict Issue)
  (batches : list (list Jira.Issue)) (updated_issues : list Issue)
  (log : list ChangeEvent) (k : string) :
  load_existing_data output_file = Ok d ->
  sync_jira_issues output_file batches = Ok (updated_issues, log) ->
  In (Some k) (map key updated_issues)
  <-> In k (dict_keys d) \/ In k (map Jira.key (List.concat batches)).
Proof.
  intros Hload Hrun.
  rewrite (sync_closed_form output_file d batches Hload) in Hrun.
  injection Hrun as <- _.
  apply written_keys, (load_existing_data_wf output_file d Hload).
Qed.

Lemma sync_keys_witness :
  In (Some "OPS-2")
     (map key [extract_issue_data ticket_plain; extract_issue_data ticket_blank])
  <-> In "OPS-2" (dict_keys [("OPS-1", extract_issue_data ticket_blank)])
      \/ In "OPS-2" (map Jira.key (List.concat [[ticket_plain]; [ticket_blank]])).
Proof.
  apply (sync_keys
           (Some [extract_issue_data ticket_blank])
           [("OPS-1", extract_issue_data ticket_blank)]
           [[ticket_plain]; [ticket_blank]]
           [extract_issue_data ticket_plain; extract_issue_data ticket_blank]
           [Added "OPS-2"; Updated "OPS-1"]); reflexivity.
Defined.

(** X13.  Whatever a run writes can be loaded again: every written record
    has a key, so the next run does not raise [KeyError]. *)
Theorem sync_output_loads (output_file : option (list Issue))
  (batches : list (list Jira.Issue)) (updated_issues : list Issue)
  (log : list ChangeEvent) :
  sync_jira_issues output_file batches = Ok (updated_issues, log) ->
  Forall keyed updated_issues
  /\ exists d', load_existing_data (Some updated_issues) = Ok d'.
Proof.
  intros Hrun.
  destruct (load_existing_data output_file) as [d|e] eqn:Hload.
  - rewrite (sync_closed_form output_file d batches Hload) in Hrun.
    injection Hrun as <- _.
    destruct (fold_trace d (List.concat batches)
                (load_existing_data_wf output_file d Hload)) as [[Hk _] _].
    simpl in Hk. split; [exact Hk|].
    apply (index_by_key_ok _ [] Hk).
  - unfold sync_jira_issues in Hrun. rewrite Hload in Hrun. discriminate.
Qed.

Lemma sync_output_loads_witness :
  exists d',
    load_existing_data
      (Some [extract_issue_data ticket_plain; extract_issue_data ticket_plain])
    = Ok d'.
Proof.
  apply (sync_output_loads None [[ticket_plain; ticket_plain]]
           [extract_issue_data ticket_plain; extract_issue_data ticket_plain]
           [Added "OPS-2"; Added "OPS-2"]).
  reflexivity.
Defined.

(** ** Running again *)

Section Again.

Lemma merge_unchanged (d : dict Issue) (fetched : list Jira.Issue) :
  Forall (fun t => exists r, dict_get d (Jira.key t) = Some r
                             /\ is_issue_modified r t = false) fetched ->
  merge d fetched = Ok (dict_values d, []).
Proof.
  intros H. unfold merge.
  assert (Hany : forall st : state, process_batch d st fetched = Ok st);
    [|apply Hany].
  induction H as [|t rest [r [Hget Hm]] _ IH]; intros st; simpl; auto.
  unfold process_issue. destruct st as [u log]. rewrite Hget, Hm. simpl.
  apply IH.
Qed.

Lemma NoDup_map_unique (A B : Type) (f : A -> B) (l : list A) (a b : A) :
  NoDup (map f l) -> In a l -> In b l -> f a = f b -> a = b.
Proof.
  induction l as [|x l IH]; simpl; [contradiction|].
  intros Hnd Ha Hb E. inversion Hnd as [|? ? Hnotin Hnd']; subst.
  destruct Ha as [<-|Ha], Hb as [<-|Hb]; auto.
  - exfalso. apply Hnotin. rewrite E. apply in_map, Hb.
  - exfalso. apply Hnotin. rewrite <- E. apply in_map, Ha.
Qed.

Lemma final_record_distinct (e : Issue) (fetched : list Jira.Issue)
  (t : Jira.Issue) :
  NoDup (map Jira.key fetched) -> In t fetched ->
  final_record e (Jira.key t) fetched
  = if is_issue_modified e t then extract_issue_data t else e.
Proof.
  intros Hnd Hin. unfold final_record, last_modified.
  destruct (find _ (rev fetched)) as [t'|] eqn:Hf.
  - apply find_some in Hf. destruct Hf as [Hin' Hf].
    apply andb_prop in Hf. destruct Hf as [Hk Hm].
    apply String.eqb_eq in Hk. apply in_rev in Hin'.
    assert (t' = t) by (apply (NoDup_map_unique _ _ Jira.key fetched); auto).
    subst t'. rewrite Hm. reflexivity.
  - destruct (is_issue_modified e t) eqn:Hm; auto.
    pose proof (find_none _ _ Hf t (proj1 (in_rev fetched t) Hin)) as Hno.
    simpl in Hno. rewrite String.eqb_refl, Hm in Hno. discriminate.
Qed.

Lemma process_batch_result (d : dict Issue) (fetched : list Jira.Issue)
  (u : list Issue) (log : list ChangeEvent) :
  wf_dict d ->
  merge d fetched = Ok (u, log) ->
  u = fold_left (apply_ticket d) fetched (dict_values d).
Proof.
  intros Hwf H. unfold merge in H.
  rewrite (merge_fold d fetched (dict_values d) [] (merge_inv_init d Hwf)) in H.
  injection H as <- _. reflexivity.
Qed.

End Again.

(** X14.  A run whose fetched tickets are all stable and already stored
    in extracted form writes the loaded collection back, and its change log
    is empty: nothing is announced as added or updated. *)
Theorem sync_unchanged_on_stable (output_file : option (list Issue))
  (d : dict Issue) (batches : list (list Jira.Issue)) :
  load_existing_data output_file = Ok d ->
  Forall (fun t => In (extract_issue_data t) (dict_values d))
         (List.concat batches) ->
  Forall stable_ticket (List.concat batches) ->
  sync_jira_issues output_file batches = Ok (dict_values d, []).
Proof.
  intros Hload Hin Hst. rewrite sync_is_merge, Hload. cbn [bind].
  apply merge_idempotent_on_stable; auto.
  apply (load_existing_data_wf output_file d Hload).
Qed.

Lemma sync_unchanged_on_stable_witness :
  sync_jira_issues (Some [extract_issue_data ticket_plain]) [[ticket_plain]; []]
  = Ok ([extract_issue_data ticket_plain], []).
Proof.
  apply (sync_unchanged_on_stable (Some [extract_issue_data ticket_plain])
           [("OPS-2", extract_issue_data ticket_plain)]
           [[ticket_plain]; []]).
  - reflexivity.
  - repeat constructor.
  - repeat constructor.
Defined.

(** X15.  When no key is fetched twice, the written list holds no key
    twice and the change log holds no entry twice: no key is announced
    twice as added or as updated. *)
Theorem sync_distinct_keys (output_file : option (list Issue))
  (batches : list (list Jira.Issue)) (updated_issues : list Issue)
  (log : list ChangeEvent) :
  NoDup (map Jira.key (List.concat batches)) ->
  sync_jira_issues output_file batches = Ok (updated_issues, log) ->
  NoDup (map key updated_issues) /\ NoDup log.
Proof.
  intros Hnd Hrun. rewrite sync_is_merge in Hrun.
  destruct (load_existing_data output_file) as [d|e] eqn:Hload;
    [|discriminate]. cbn [bind] in Hrun.
  destruct (merge_distinct_keys d (List.concat batches)
              (load_existing_data_wf output_file d Hload) Hnd)
    as [u [l [Hrun' [Hu [Hl _]]]]].
  rewrite Hrun in Hrun'. injection Hrun' as <- <-. auto.
Qed.

Lemma sync_distinct_keys_witness :
  NoDup (map key [extract_issue_data ticket_plain; extract_issue_data ticket_blank])
  /\ NoDup [Added "OPS-2"; Updated "OPS-1"].
Proof.
  apply (sync_distinct_keys (Some [extract_issue_data ticket_blank])
           [[ticket_plain]; [ticket_blank]]).
  - repeat constructor; simpl; intuition discriminate.
  - reflexivity.
Defined.

(** X16.  A second run over the same pages, on the file the first run
    wrote, writes the same file and has an empty change log (nothing is
    announced as added or updated), provided no key is fetched twice and
    the fetched tickets are stable. *)
Theorem sync_twice (output_file : option (list Issue))
  (batches : list (list Jira.Issue)) (updated_issues : list Issue)
  (log : list ChangeEvent) :
  NoDup (map Jira.key (List.concat batches)) ->
  Forall stable_ticket (List.concat batches) ->
  sync_jira_issues output_file batches = Ok (updated_issues, log) ->
  sync_jira_issues (Some updated_issues) batches = Ok (updated_issues, []).
Proof.
  intros Hnd Hst Hrun. rewrite sync_is_merge in Hrun.
  destruct (load_existing_data output_file) as [d|e0] eqn:Hload;
    [|discriminate]. cbn [bind] in Hrun.
  pose proof (load_existing_data_wf output_file d Hload) as Hwf.
  destruct (process_batch_distinct d (List.concat batches) []
              (dict_values d, []) (distinct_inv_init d Hwf) Hnd)
    as [st [Hrun' Hinv]]; [intros t _ []|].
  unfold merge in Hrun. rewrite Hrun in Hrun'. injection Hrun' as <-.
  pose proof (distinct_inv_keyed d _ _ Hinv) as Hkeyed.
  destruct Hinv as [Hu _]. simpl in Hu, Hkeyed.
  destruct (index_by_key_distinct updated_issues [] Hkeyed Hu)
    as [d' [Hload' [Hvalues _]]]; [intros k _ []|].
  simpl in Hvalues.
  assert (Hwf' : wf_dict d')
    by (apply (load_existing_data_wf (Some updated_issues)); exact Hload').
  rewrite sync_is_merge. cbn [load_existing_data bind]. rewrite Hload'.
  cbn [bind]. rewrite <- Hvalues. apply merge_unchanged.
  pose proof (process_batch_result d (List.concat batches) updated_issues log
                Hwf Hrun) as Hfold.
  destruct (fold_trace d (List.concat batches) Hwf) as [_ [Hfin [Hnew _]]].
  rewrite <- Hfold in Hfin, Hnew.
  apply Forall_forall. intros t Ht.
  rewrite Forall_forall in Hst. pose proof (Hst t Ht) as Hstable.
  destruct (dict_get d (Jira.key t)) as [e|] eqn:Hget.
  - pose proof (Hfin _ _ Hget) as Hin.
    rewrite (final_record_distinct e _ t Hnd Ht) in Hin.
    destruct (is_issue_modified e t) eqn:Hm.
    + exists (extract_issue_data t). split.
      * apply wf_dict_lookup; auto. rewrite Hvalues. exact Hin.
      * apply unmodified_after_extract, Hstable.
    + exists e. split; [|exact Hm].
      apply wf_dict_lookup; auto; [rewrite Hvalues; exact Hin|].
      apply (wf_dict_key d _ e Hwf Hget).
  - exists (extract_issue_data t). split.
    + apply wf_dict_lookup; auto. rewrite Hvalues. apply Hnew; auto.
    + apply unmodified_after_extract, Hstable.
Qed.

Lemma sync_twice_witness :
  sync_jira_issues
    (Some [sample_stored None None []; extract_issue_data ticket_plain])
    [[ticket_plain]; [sample_ticket "OPS-1" (Some "Now fixed") []]]
  = Ok ([extract_issue_data ticket_plain;
         extract_issue_data (sample_ticket "OPS-1" (Some "Now fixed") [])],
        [Updated "OPS-1"])
  /\ sync_jira_issues
       (Some [extract_issue_data ticket_plain;
              extract_issue_data (sample_ticket "OPS-1" (Some "Now fixed") [])])
       [[ticket_plain]; [sample_ticket "OPS-1" (Some "Now fixed") []]]
     = Ok ([extract_issue_data ticket_plain;
            extract_issue_data (sample_ticket "OPS-1" (Some "Now fixed") [])],
           []).
Proof.
  split; [reflexivity|].
  apply (sync_twice
           (Some [sample_stored None None []; extract_issue_data ticket_plain])
           [[ticket_plain]; [sample_ticket "OPS-1" (Some "Now fixed") []]]
           _ [Updated "OPS-1"]).
  - repeat constructor; simpl; intuition discriminate.
  - repeat constructor.
  - reflexivity.
Defined.

(** ** Paging *)

Section Paging.

Local Open Scope Z_scope.

Lemma range_loop_spec (stop step : Z) (fuel : nat) (start : Z) :
  0 < step ->
  stop - start <= Z.of_nat fuel ->
  exists n : nat,
    range_loop fuel start stop step
    = map (fun i => start + Z.of_nat i * step) (seq 0 n)
    /\ stop <= start + Z.of_nat n * step
    /\ (n <> O -> start + (Z.of_nat n - 1) * step < stop).
Proof.
  intros Hstep. revert start.
  induction fuel as [|fuel IH]; intros start Hfuel.
  - exists O. simpl in *. repeat split; [lia|congruence].
  - cbn [range_loop].
    replace (0 <? step) with true by (symmetry; apply Z.ltb_lt; exact Hstep).
    destruct (Z.ltb_spec start stop) as [Hlt|Hge].
    + destruct (IH (start + step)) as [n [Hl [Hstop Hlast]]]; [lia|].
      exists (S n). split; [|split].
      * rewrite Hl. cbn [seq map]. f_equal; [lia|].
        rewrite <- seq_shift, map_map. apply map_ext. intros i. lia.
      * lia.
      * intros _. destruct n as [|n]; [simpl; lia|].
        specialize (Hlast ltac:(discriminate)). lia.
    + exists O. simpl. repeat split; [lia|congruence].
Qed.

Lemma firstn_skipn_add (A : Type) (a b : nat) (l : list A) :
  (firstn a l ++ firstn b (skipn a l))%list = firstn (a + b) l.
Proof.
  revert l. induction a as [|a IH]; intros l; simpl; auto.
  destruct l as [|x l]; simpl; [destruct b; reflexivity|].
  rewrite IH. reflexivity.
Qed.

Lemma windows_concat (A : Type) (b n : nat) (l : list A) :
  List.concat (map (fun i => firstn b (skipn (i * b) l)) (seq 0 n))
  = firstn (n * b) l.
Proof.
  induction n as [|n IH]; [reflexivity|].
  rewrite seq_S, map_app, concat_app, IH. simpl.
  rewrite app_nil_r, firstn_skipn_add. f_equal. lia.
Qed.

Lemma range_positive (stop step : Z) :
  0 < step ->
  exists n : nat,
    range stop step = map (fun i => Z.of_nat i * step) (seq 0 n)
    /\ stop <= Z.of_nat n * step
    /\ (n <> O -> (Z.of_nat n - 1) * step < stop).
Proof.
  intros Hstep. unfold range.
  destruct (range_loop_spec stop step (Z.to_nat (Z.abs stop)) 0 Hstep)
    as [n [Hl [Hstop Hlast]]]; [lia|].
  exists n. rewrite Hl. split; [apply map_ext; intros i; lia|].
  split; [lia|]. intros Hn. specialize (Hlast Hn). lia.
Qed.

End Paging.

(** X17.  For a positive step, [range(0, stop, step)] is the list of the
    multiples [0, step, 2*step, ...] of the step below [stop]: their number
    [n] is the least with [n * step >= stop], and none when [stop <= 0]. *)
Theorem range_offsets (stop step : Z) :
  (0 < step)%Z ->
  exists n : nat,
    range stop step = map (fun i => (Z.of_nat i * step)%Z) (seq 0 n)
    /\ (stop <= Z.of_nat n * step)%Z
    /\ (n <> O -> ((Z.of_nat n - 1) * step < stop)%Z).
Proof.
  intros Hstep. unfold range.
  destruct (range_loop_spec stop step (Z.to_nat (Z.abs stop)) 0%Z Hstep)
    as [n [Hl [Hstop Hlast]]]; [lia|].
  exists n. rewrite Hl. split; [apply map_ext; intros i; lia|].
  split; [lia|]. intros Hn. specialize (Hlast Hn). lia.
Qed.

Lemma range_offsets_witness :
  exists n : nat,
    range 1200 500 = map (fun i => (Z.of_nat i * 500)%Z) (seq 0 n)
    /\ (1200 <= Z.of_nat n * 500)%Z.
Proof.
  destruct (range_offsets 1200 500 eq_refl) as [n [Hl [Hstop _]]].
  exists n. auto.
Defined.

(** X18.  Every page is asked for with [maxResults = batch_size], the last
    one too.  Against a source that serves one fixed ticket list, cut to
    the window asked for, a run therefore sees the first [n * batch_size]
    tickets of that list, where [n] is the number of pages: at least
    [max_issues] of them and possibly up to [batch_size - 1] more, and
    none beyond. *)
Theorem paging_sees_whole_pages (search_issues : Z -> Z -> list Jira.Issue)
  (server : list Jira.Issue) (batch_size max_issues : Z) :
  (0 < batch_size)%Z ->
  (forall startAt maxResults,
      search_issues startAt maxResults = window server startAt maxResults) ->
  exists n : nat,
    List.length (requested_pages search_issues batch_size max_issues) = n
    /\ List.concat (requested_pages search_issues batch_size max_issues)
       = firstn (n * Z.to_nat batch_size) server
    /\ (max_issues <= Z.of_nat n * batch_size)%Z
    /\ (n <> O -> (Z.of_nat n * batch_size < max_issues + batch_size)%Z).
Proof.
  intros Hb Hsearch.
  destruct (range_positive max_issues batch_size Hb) as [n [Hl [Hstop Hlast]]].
  exists n. unfold requested_pages. rewrite Hl, !length_map, length_seq.
  split; [reflexivity|]. split; [|split; [exact Hstop|]].
  - rewrite map_map, <- windows_concat. f_equal. apply map_ext. intros i.
    rewrite Hsearch. unfold window.
    rewrite Z2Nat.inj_mul, Nat2Z.id by lia. reflexivity.
  - intros Hn. specialize (Hlast Hn). lia.
Qed.

Lemma paging_sees_whole_pages_witness :
  exists n : nat,
    List.concat
      (requested_pages
         (window [ticket_blank; ticket_plain; ticket_blank; ticket_plain]) 2 3)
    = firstn (n * Z.to_nat 2)
        [ticket_blank; ticket_plain; ticket_blank; ticket_plain]
    /\ (3 <= Z.of_nat n * 2)%Z.
Proof.
  destruct (paging_sees_whole_pages
              (window [ticket_blank; ticket_plain; ticket_blank; ticket_plain])
              [ticket_blank; ticket_plain; ticket_blank; ticket_plain]
              2 3 eq_refl (fun _ _ => eq_refl))
    as [n [_ [Hc [Hm _]]]].
  exists n. auto.
Defined.

(** X19.  The order of what a run does first.  Loading comes before the
    paging loop, so a stored record without a key raises [KeyError] also
    when the batch size is zero.  When loading succeeds, a batch size of
    zero raises the [ValueError] of [range] before any page is asked for.
    With a positive batch size and [max_issues <= 0] the loop body never
    runs: no page is asked for, and the list the run hands to the writer
    is the loaded collection. *)
Theorem paged_run_outcome (output_file : option (list Issue)) (d : dict Issue)
  (existing_data : list Issue)
  (search_issues : Z -> Z -> list Jira.Issue) (batch_size max_issues : Z) :
  (Exists (fun issue => key issue = None) existing_data ->
   sync_jira_issues_paged (Some existing_data) search_issues 0 max_issues
   = Failed (Raised (KeyError "key")))
  /\ (load_existing_data output_file = Ok d ->
      sync_jira_issues_paged output_file search_issues 0 max_issues
      = Failed ValueError)
  /\ (load_existing_data output_file = Ok d ->
      (0 < batch_size)%Z -> (max_issues <= 0)%Z ->
      requested_pages search_issues batch_size max_issues = []
      /\ sync_jira_issues_paged output_file search_issues batch_size max_issues
         = Done (dict_values d, [])).
Proof.
  unfold sync_jira_issues_paged.
  split; [|split].
  - intros H. cbn [load_existing_data].
    rewrite (index_by_key_raise existing_data [] H). reflexivity.
  - intros Hd. rewrite Hd. reflexivity.
  - intros Hd Hb Hm. rewrite Hd.
    destruct (Z.eqb_spec batch_size 0) as [E|_]; [lia|].
    destruct (range_positive max_issues batch_size Hb) as [n [Hl [_ Hlast]]].
    destruct n as [|n]; [|specialize (Hlast ltac:(discriminate)); lia].
    unfold requested_pages. rewrite Hl. split; reflexivity.
Qed.

Lemma paged_run_outcome_witness :
  sync_jira_issues_paged (Some [keyless_record]) (window [ticket_plain]) 0 10
  = Failed (Raised (KeyError "key"))
  /\ sync_jira_issues_paged (Some [sample_stored None None []])
       (window [ticket_plain]) 0 10
     = Failed ValueError
  /\ sync_jira_issues_paged (Some [sample_stored None None []])
       (window [ticket_plain]) 500 0
     = Done ([sample_stored None None []], []).
Proof.
  split; [|split].
  - apply (paged_run_outcome None [] [keyless_record]
             (window [ticket_plain]) 0 10).
    constructor. reflexivity.
  - apply (paged_run_outcome (Some [sample_stored None None []])
             [("OPS-1", sample_stored None None [])] []
             (window [ticket_plain]) 0 10).
    reflexivity.
  - apply (paged_run_outcome (Some [sample_stored None None []])
             [("OPS-1", sample_stored None None [])] []
             (window [ticket_plain]) 500 0); [reflexivity|lia|lia].
Defined.

(** ** [main] *)

Section Main.

Lemma paged_runs (output_file : option (list Issue)) (d : dict Issue)
  (search_issues : Z -> Z -> list Jira.Issue) (batch_size max_issues : Z) :
  load_existing_data output_file = Ok d ->
  batch_size <> 0%Z ->
  sync_jira_issues_paged output_file search_issues batch_size max_issues
  = Done (fold_left (apply_ticket d)
            (List.concat (requested_pages search_issues batch_size max_issues))
            (dict_values d),
          flat_map (event_of d)
            (List.concat (requested_pages search_issues batch_size max_issues))).
Proof.
  intros Hload Hb. unfold sync_jira_issues_paged. rewrite Hload.
  destruct (Z.eqb_spec batch_size 0) as [E|_]; [contradiction|].
  pose proof (sync_closed_form output_file d
                (requested_pages search_issues batch_size max_issues) Hload)
    as Hsync.
  unfold sync_jira_issues in Hsync. rewrite Hload in Hsync. cbn [bind] in Hsync.
  rewrite Hsync. reflexivity.
Qed.

Lemma written_keyed (d : dict Issue) (fetched : list Jira.Issue) :
  wf_dict d -> Forall keyed (fold_left (apply_ticket d) fetched (dict_values d)).
Proof.
  intros Hwf. destruct (fold_trace d fetched Hwf) as [[Hk _] _]. exact Hk.
Qed.

End Main.

(** X21.  After [main], the keys of the file are the keys it started with,
    the keys the first run fetched and the keys the second run fetched:
    what the first project wrote is still there when the second project is
    done. *)
Theorem main_keys (output_file : option (list Issue)) (d : dict Issue)
  (search_first search_second : Z -> Z -> list Jira.Issue)
  (updated_issues : list Issue) (log : list ChangeEvent) (k : string) :
  load_existing_data output_file = Ok d ->
  main output_file search_first search_second = Done (updated_issues, log) ->
  In (Some k) (map key updated_issues)
  <-> In k (dict_keys d)
      \/ In k (map Jira.key
                 (List.concat (requested_pages search_first 500 11000)))
      \/ In k (map Jira.key
                 (List.concat (requested_pages search_second 500 11000))).
Proof.
  intros Hload Hmain. unfold main in Hmain.
  rewrite (paged_runs output_file d search_first 500 11000 Hload) in Hmain
    by discriminate.
  pose proof (load_existing_data_wf output_file d Hload) as Hwf.
  set (F1 := List.concat (requested_pages search_first 500 11000)) in *.
  set (F2 := List.concat (requested_pages search_second 500 11000)) in *.
  set (u1 := fold_left (apply_ticket d) F1 (dict_values d)) in *.
  destruct (index_by_key_ok u1 [] (written_keyed d F1 Hwf)) as [d1 Hd1].
  rewrite (paged_runs (Some u1) d1 search_second 500 11000 Hd1) in Hmain
    by discriminate.
  fold F2 in Hmain. injection Hmain as <- _.
  assert (Hwf1 : wf_dict d1)
    by (apply (load_existing_data_wf (Some u1)); exact Hd1).
  rewrite (written_keys d1 F2 k Hwf1), (loaded_keys u1 d1 k Hd1).
  unfold u1. rewrite (written_keys d F1 k Hwf). tauto.
Qed.

Lemma main_keys_witness :
  In (Some "OPS-2")
     (map key [sample_stored None None []; extract_issue_data ticket_plain])
  <-> In "OPS-2" (dict_keys [("OPS-1", sample_stored None None [])])
      \/ In "OPS-2"
           (map Jira.key
              (List.concat (requested_pages (window [ticket_plain]) 500 11000)))
      \/ In "OPS-2"
           (map Jira.key (List.concat (requested_pages (window []) 500 11000))).
Proof.
  apply (main_keys (Some [sample_stored None None []])
           [("OPS-1", sample_stored None None [])]
           (window [ticket_plain]) (window [])
           [sample_stored None None []; extract_issue_data ticket_plain]
           [Added "OPS-2"]).
  - reflexivity.
  - vm_compute. reflexivity.
Defined.
